(** * bot_crypto: the trading core of [bot.py]

    A shallow embedding of [BinanceTradingBot] (indicator computation,
    signal voting, position management and one strategy cycle) together
    with the properties its specification states about them.

    Numbers.  Every number the bot handles is a Python/numpy float.  The
    model keeps the values that decide control flow apart -- [NaN] and the
    two infinities -- and represents every finite value by an exact
    rational, which the arithmetic keeps in lowest terms: rounding,
    overflow and the sign of zero are not modelled.
    The one operation the rationals lack, the square root used by the
    Bollinger bands, is left to a [Sqrt] implementation that the
    development is parametric in. *)

From Stdlib Require Import ZArith QArith Qabs Lqa Lia List Bool Arith.
Import ListNotations.

(* ================================================================== *)
(** * Floats *)
(* ================================================================== *)

Inductive float : Type :=
| NaN
| NInf
| Fin (q : Q)
| PInf.

Coercion Fin : Q >-> float.

Class Sqrt := sqrtQ : Q -> Q.

Module Float.

Definition neg (x : float) : float :=
  match x with
  | NaN => NaN
  | NInf => PInf
  | Fin q => Fin (- q)
  | PInf => NInf
  end.

Definition add (x y : float) : float :=
  match x, y with
  | NaN, _ | _, NaN => NaN
  | PInf, NInf | NInf, PInf => NaN
  | PInf, _ | _, PInf => PInf
  | NInf, _ | _, NInf => NInf
  | Fin a, Fin b => Fin (Qred (a + b))
  end.

Definition sub (x y : float) : float := add x (neg y).

(** An infinity of sign [pos] times the finite [q]. *)
Definition inf_times (pos : bool) (q : Q) : float :=
  match q ?= 0 with
  | Eq => NaN
  | Gt => if pos then PInf else NInf
  | Lt => if pos then NInf else PInf
  end.

Definition mul (x y : float) : float :=
  match x, y with
  | NaN, _ | _, NaN => NaN
  | Fin a, Fin b => Fin (Qred (a * b))
  | PInf, PInf | NInf, NInf => PInf
  | PInf, NInf | NInf, PInf => NInf
  | PInf, Fin b | Fin b, PInf => inf_times true b
  | NInf, Fin b | Fin b, NInf => inf_times false b
  end.

(** numpy division: a zero divisor yields an infinity or [NaN], never an
    exception. *)
Definition div (x y : float) : float :=
  match x, y with
  | NaN, _ | _, NaN => NaN
  | (PInf | NInf), (PInf | NInf) => NaN
  | Fin _, (PInf | NInf) => Fin 0
  | PInf, Fin b => match b ?= 0 with Lt => NInf | _ => PInf end
  | NInf, Fin b => match b ?= 0 with Lt => PInf | _ => NInf end
  | Fin a, Fin b =>
      match b ?= 0 with
      | Eq => match a ?= 0 with Eq => NaN | Gt => PInf | Lt => NInf end
      | _ => Fin (Qred (a / b))
      end
  end.

(** The order of two floats; [None] when one of them is [NaN]. *)
Definition compare (x y : float) : option comparison :=
  match x, y with
  | NaN, _ | _, NaN => None
  | NInf, NInf | PInf, PInf => Some Eq
  | NInf, _ | _, PInf => Some Lt
  | _, NInf | PInf, _ => Some Gt
  | Fin a, Fin b => Some (a ?= b)
  end.

Definition ltb (x y : float) : bool :=
  match compare x y with Some Lt => true | _ => false end.
Definition leb (x y : float) : bool :=
  match compare x y with Some Lt | Some Eq => true | _ => false end.
Definition gtb (x y : float) : bool :=
  match compare x y with Some Gt => true | _ => false end.
Definition geb (x y : float) : bool :=
  match compare x y with Some Gt | Some Eq => true | _ => false end.
Definition eqb (x y : float) : bool :=
  match compare x y with Some Eq => true | _ => false end.
Definition neb (x y : float) : bool := negb (eqb x y).

Definition isinf (x : float) : bool :=
  match x with PInf | NInf => true | _ => false end.

Definition of_nat (n : nat) : float := Fin (inject_Z (Z.of_nat n)).

(** [np.sqrt]. *)
Definition sqrt `{Sqrt} (x : float) : float :=
  match x with
  | NaN | NInf => NaN
  | PInf => PInf
  | Fin q => match q ?= 0 with Lt => NaN | _ => Fin (sqrtQ q) end
  end.

Definition sum (xs : list float) : float := fold_left add xs (Fin 0).

(** Two floats denote the same value. *)
Definition same (x y : float) : Prop :=
  match x, y with
  | NaN, NaN | NInf, NInf | PInf, PInf => True
  | Fin a, Fin b => a == b
  | _, _ => False
  end.

End Float.

Declare Scope float_scope.
Delimit Scope float_scope with float.
Bind Scope float_scope with float.
Infix "+" := Float.add : float_scope.
Infix "-" := Float.sub : float_scope.
Infix "*" := Float.mul : float_scope.
Infix "/" := Float.div : float_scope.
Notation "- x" := (Float.neg x) : float_scope.
Infix "<?" := Float.ltb : float_scope.
Infix "<=?" := Float.leb : float_scope.
Infix ">?" := Float.gtb : float_scope.
Infix ">=?" := Float.geb : float_scope.
Infix "==?" := Float.eqb (at level 70) : float_scope.
Infix "!=?" := Float.neb (at level 70) : float_scope.
Infix "=f=" := Float.same (at level 70) : type_scope.

Local Open Scope float_scope.

(* ================================================================== *)
(** * The pandas operations [calculate_indicators] calls *)
(* ================================================================== *)

(** A [Series] is the list of its values, oldest first.  The operations
    follow pandas with the arguments the bot leaves at their defaults. *)

Module Series.

(** Element-wise arithmetic of two aligned series. *)
Fixpoint map2 (f : float -> float -> float) (xs ys : list float) : list float :=
  match xs, ys with
  | x :: xs', y :: ys' => f x y :: map2 f xs' ys'
  | _, _ => []
  end.

(** [s.diff()]: each value minus the one before it; the first entry is
    the difference with a missing value. *)
Fixpoint diff_from (prev : float) (xs : list float) : list float :=
  match xs with
  | [] => []
  | x :: rest => (x - prev) :: diff_from x rest
  end.

Definition diff (xs : list float) : list float := diff_from NaN xs.

(** [s.where(cond, other)]: keep the entries where [cond] holds. *)
Definition where_ (cond : float -> bool) (other : float) (xs : list float)
  : list float :=
  map (fun x => if cond x then x else other) xs.

(** Rolling windows replace infinite entries by missing ones before they
    aggregate. *)
Definition prep_value (x : float) : float :=
  if Float.isinf x then NaN else x.

(** [s.rolling(window=w)], [min_periods] defaulting to [w]: entry [i]
    aggregates the [w] values ending at [i], and is missing until the
    window is full.  [past] holds the previous window, newest first; a
    missing value inside the window makes the aggregate missing through
    the arithmetic. *)
Fixpoint rolling_from (w : nat) (agg : list float -> float)
  (past xs : list float) : list float :=
  match xs with
  | [] => []
  | x :: rest =>
      let win := firstn w (x :: past) in
      (if (length win <? w)%nat then NaN else agg (rev win))
        :: rolling_from w agg win rest
  end.

Definition rolling (w : nat) (agg : list float -> float) (xs : list float)
  : list float :=
  rolling_from w agg [] (map prep_value xs).

Definition mean (win : list float) : float :=
  Float.sum win / Float.of_nat (length win).

(** Sample variance ([ddof=1]): missing unless there are at least two
    observations. *)
Definition var (win : list float) : float :=
  if (length win <=? 1)%nat then NaN
  else
    let m := mean win in
    Float.sum (map (fun x => (x - m) * (x - m)) win)
      / Float.of_nat (length win - 1).

(** [zsqrt]: the square root, with 0 for a negative argument. *)
Definition zsqrt `{Sqrt} (x : float) : float :=
  if x <? Fin 0 then Fin 0 else Float.sqrt x.

Definition std `{Sqrt} (win : list float) : float := zsqrt (var win).

Definition rolling_mean (w : nat) := rolling w mean.
Definition rolling_std `{Sqrt} (w : nat) := rolling w std.

(** [s.ewm(span=span).mean()] with [adjust=True], [ignore_na=False] and
    [min_periods=0]: the running state of pandas' one-pass loop. *)
Record ewm_state : Type := mk_ewm {
  weighted : float;
  old_wt : float;
  nobs : nat
}.

Definition ewm_minp : nat := 1.

Definition ewm_alpha (span : float) : float :=
  let com := (span - Fin 1) / Fin 2 in
  Fin 1 / (Fin 1 + com).

Definition ewm_out (st : ewm_state) : float :=
  if (ewm_minp <=? nobs st)%nat then weighted st else NaN.

Definition ewm_init (x : float) : ewm_state :=
  let is_observation := x ==? x in
  {| weighted := x; old_wt := Fin 1;
     nobs := if is_observation then 1 else 0 |}.

Definition ewm_step (alpha : float) (st : ewm_state) (cur : float)
  : ewm_state :=
  let old_wt_factor := Fin 1 - alpha in
  let new_wt := Fin 1 in
  let is_observation := cur ==? cur in
  let nobs' := (nobs st + if is_observation then 1 else 0)%nat in
  if weighted st ==? weighted st then
    let old_wt' := old_wt st * old_wt_factor in
    if is_observation then
      let weighted' :=
        if weighted st !=? cur
        then (old_wt' * weighted st + new_wt * cur) / (old_wt' + new_wt)
        else weighted st in
      {| weighted := weighted'; old_wt := old_wt' + new_wt; nobs := nobs' |}
    else
      {| weighted := weighted st; old_wt := old_wt'; nobs := nobs' |}
  else if is_observation then
    {| weighted := cur; old_wt := old_wt st; nobs := nobs' |}
  else
    {| weighted := weighted st; old_wt := old_wt st; nobs := nobs' |}.

Fixpoint ewm_from (alpha : float) (st : ewm_state) (xs : list float)
  : list float :=
  match xs with
  | [] => []
  | cur :: rest =>
      let st' := ewm_step alpha st cur in
      ewm_out st' :: ewm_from alpha st' rest
  end.

Definition ewm_mean (span : float) (xs : list float) : list float :=
  match xs with
  | [] => []
  | x :: rest =>
      let st := ewm_init x in
      ewm_out st :: ewm_from (ewm_alpha span) st rest
  end.

End Series.

(* ================================================================== *)
(** * Data of the bot *)
(* ================================================================== *)

(** The strings ['BUY'], ['SELL'], ['HOLD'] and ['buy'], ['sell']. *)
Inductive signal : Type := BUY | SELL | HOLD.
Inductive side : Type := buy | sell.

(** One OHLCV bar as [fetch_ohlcv] returns it. *)
Module Candle.
Record t : Type := mk {
  timestamp : Z;
  open : float;
  high : float;
  low : float;
  close : float;
  volume : float
}.
End Candle.

(** One line of the frame [calculate_indicators] returns: the bar and the
    nine indicator columns. *)
Module DfRow.
Record t : Type := mk {
  bar : Candle.t;
  ma_short : float;
  ma_long : float;
  rsi : float;
  macd : float;
  macd_signal : float;
  macd_histogram : float;
  bb_middle : float;
  bb_upper : float;
  bb_lower : float
}.
Definition close (r : t) : float := Candle.close (bar r).
End DfRow.

(** [self.position], when it is not [None]. *)
Module Position.
Record t : Type := mk {
  side_ : side;
  amount : float;
  entry_price : float;
  timestamp : Z
}.
End Position.

(** The order structure the exchange answers with. *)
Module Order.
Record t : Type := mk {
  id : Z;
  price : float;
  filled : float
}.
End Order.

(** The trading and technical parameters set by [__init__]. *)
Record config : Type := mk_config {
  trade_amount : float;
  stop_loss_pct : float;
  take_profit_pct : float;
  ma_short : nat;
  ma_long : nat;
  rsi_period : nat;
  rsi_oversold : float;
  rsi_overbought : float
}.

Definition default_config : config :=
  {| trade_amount := Fin (1 # 1000);
     stop_loss_pct := Fin (2 # 100);
     take_profit_pct := Fin (4 # 100);
     ma_short := 10;
     ma_long := 20;
     rsi_period := 14;
     rsi_oversold := Fin 30;
     rsi_overbought := Fin 70 |}.

(** The exchange, seen from the bot: what it answers to the [n]-th
    request of each kind.  [None] stands for a raised exception. *)
Record exchange : Type := mk_exchange {
  fetch_ohlcv : nat -> option (list Candle.t);
  create_market_order : nat -> side -> float -> option Order.t;
  create_limit_order : nat -> side -> float -> float -> option Order.t;
  now : nat -> Z
}.

(** What the logger receives. *)
Inductive log_msg : Type :=
| DataError
| OrderPlaced (sd : side) (amount : float) (price : option float)
| OrderError
| StopLoss (price : float)
| TakeProfit (price : float)
| BuySignal (price : float)
| SellSignal (price : float)
| CycleInfo (price : float) (last : option signal) (in_position : bool)
| StrategyError.

(** An order request as it reaches the exchange. *)
Record request : Type := mk_request {
  req_side : side;
  req_amount : float;
  req_price : option float
}.

(** The mutable state: [self.position], [self.last_signal], and the
    history of what the bot asked of the exchange and wrote to its log
    (oldest first). *)
Record bot : Type := mk_bot {
  position : option Position.t;
  last_signal : option signal;
  fetches : nat;
  sent : list request;
  log : list log_msg
}.

Definition initial : bot :=
  {| position := None; last_signal := None;
     fetches := 0; sent := []; log := [] |}.

Definition set_position (p : option Position.t) (s : bot) : bot :=
  {| position := p; last_signal := last_signal s;
     fetches := fetches s; sent := sent s; log := log s |}.

Definition set_last_signal (g : signal) (s : bot) : bot :=
  {| position := position s; last_signal := Some g;
     fetches := fetches s; sent := sent s; log := log s |}.

Definition logger (m : log_msg) (s : bot) : bot :=
  {| position := position s; last_signal := last_signal s;
     fetches := fetches s; sent := sent s; log := log s ++ [m] |}.

Definition signal_eqb (a b : signal) : bool :=
  match a, b with
  | BUY, BUY | SELL, SELL | HOLD, HOLD => true
  | _, _ => false
  end.

(** [self.last_signal != g]; the attribute starts as [None]. *)
Definition last_signal_differs (s : bot) (g : signal) : bool :=
  match last_signal s with
  | Some g' => negb (signal_eqb g' g)
  | None => true
  end.

(* ================================================================== *)
(** * The methods of [BinanceTradingBot] *)
(* ================================================================== *)

Section Methods.

Context {sq : Sqrt}.
Variable self : config.
Variable binance : exchange.

(** ** [calculate_indicators] *)

(** The right-hand sides of the method's assignments, in its order. *)
Definition delta (close : list float) : list float := Series.diff close.

Definition gain (delta : list float) : list float :=
  Series.rolling_mean (rsi_period self)
    (Series.where_ (fun d => d >? Fin 0) (Fin 0) delta).

Definition loss (delta : list float) : list float :=
  Series.rolling_mean (rsi_period self)
    (map Float.neg (Series.where_ (fun d => d <? Fin 0) (Fin 0) delta)).

Definition rs (gain loss : list float) : list float :=
  Series.map2 Float.div gain loss.

Definition rsi_of_rs (r : float) : float := Fin 100 - Fin 100 / (Fin 1 + r).

Definition rsi (rs : list float) : list float := map rsi_of_rs rs.

Definition exp1 (close : list float) : list float :=
  Series.ewm_mean (Fin 12) close.

Definition exp2 (close : list float) : list float :=
  Series.ewm_mean (Fin 26) close.

Definition macd (exp1 exp2 : list float) : list float :=
  Series.map2 Float.sub exp1 exp2.

Definition macd_signal (macd : list float) : list float :=
  Series.ewm_mean (Fin 9) macd.

Definition macd_histogram (macd macd_signal : list float) : list float :=
  Series.map2 Float.sub macd macd_signal.

Definition bb_middle (close : list float) : list float :=
  Series.rolling_mean 20 close.

Definition bb_std (close : list float) : list float :=
  Series.rolling_std 20 close.

Definition bb_upper (bb_middle bb_std : list float) : list float :=
  Series.map2 Float.add bb_middle (map (fun x => x * Fin 2) bb_std).

Definition bb_lower (bb_middle bb_std : list float) : list float :=
  Series.map2 Float.sub bb_middle (map (fun x => x * Fin 2) bb_std).

(** The nine columns the method adds to the frame. *)
Record columns : Type := mk_columns {
  df_ma_short : list float;
  df_ma_long : list float;
  df_rsi : list float;
  df_macd : list float;
  df_macd_signal : list float;
  df_macd_histogram : list float;
  df_bb_middle : list float;
  df_bb_upper : list float;
  df_bb_lower : list float
}.

Definition indicator_columns (close : list float) : columns :=
  let ma_short_ := Series.rolling_mean (ma_short self) close in
  let ma_long_ := Series.rolling_mean (ma_long self) close in
  let delta_ := delta close in
  let gain_ := gain delta_ in
  let loss_ := loss delta_ in
  let rs_ := rs gain_ loss_ in
  let rsi_ := rsi rs_ in
  let exp1_ := exp1 close in
  let exp2_ := exp2 close in
  let macd_ := macd exp1_ exp2_ in
  let macd_signal_ := macd_signal macd_ in
  let macd_histogram_ := macd_histogram macd_ macd_signal_ in
  let bb_middle_ := bb_middle close in
  let bb_std_ := bb_std close in
  let bb_upper_ := bb_upper bb_middle_ bb_std_ in
  let bb_lower_ := bb_lower bb_middle_ bb_std_ in
  {| df_ma_short := ma_short_; df_ma_long := ma_long_; df_rsi := rsi_;
     df_macd := macd_; df_macd_signal := macd_signal_;
     df_macd_histogram := macd_histogram_;
     df_bb_middle := bb_middle_; df_bb_upper := bb_upper_;
     df_bb_lower := bb_lower_ |}.

(** Line [i] of the frame: the bar and each column read at index [i]. *)
Definition frame_row (c : columns) (i : nat) (b : Candle.t) : DfRow.t :=
  let at_ (column : list float) := nth i column NaN in
  {| DfRow.bar := b;
     DfRow.ma_short := at_ (df_ma_short c);
     DfRow.ma_long := at_ (df_ma_long c);
     DfRow.rsi := at_ (df_rsi c);
     DfRow.macd := at_ (df_macd c);
     DfRow.macd_signal := at_ (df_macd_signal c);
     DfRow.macd_histogram := at_ (df_macd_histogram c);
     DfRow.bb_middle := at_ (df_bb_middle c);
     DfRow.bb_upper := at_ (df_bb_upper c);
     DfRow.bb_lower := at_ (df_bb_lower c) |}.

Definition calculate_indicators (df : list Candle.t) : list DfRow.t :=
  let c := indicator_columns (map Candle.close df) in
  map (fun ib : nat * Candle.t => frame_row c (fst ib) (snd ib))
      (combine (seq 0 (length df)) df).

(** ** [generate_signals] *)

(** The two vote counters after one [if]/[elif] pair. *)
Definition vote (buy_if sell_if : bool) (counters : nat * nat)
  : nat * nat :=
  let (buy_signals, sell_signals) := counters in
  if buy_if then (buy_signals + 1, sell_signals)%nat
  else if sell_if then (buy_signals, sell_signals + 1)%nat
  else (buy_signals, sell_signals).

Definition count_votes (latest previous : DfRow.t) : nat * nat :=
  let counters := (0, 0)%nat in
  (* Signal 1: moving-average crossover *)
  let counters :=
    vote ((DfRow.ma_short latest >? DfRow.ma_long latest)
            && (DfRow.ma_short previous <=? DfRow.ma_long previous))
         ((DfRow.ma_short latest <? DfRow.ma_long latest)
            && (DfRow.ma_short previous >=? DfRow.ma_long previous))
         counters in
  (* Signal 2: RSI *)
  let counters :=
    vote (DfRow.rsi latest <? rsi_oversold self)
         (DfRow.rsi latest >? rsi_overbought self)
         counters in
  (* Signal 3: MACD *)
  let counters :=
    vote ((DfRow.macd latest >? DfRow.macd_signal latest)
            && (DfRow.macd previous <=? DfRow.macd_signal previous))
         ((DfRow.macd latest <? DfRow.macd_signal latest)
            && (DfRow.macd previous >=? DfRow.macd_signal previous))
         counters in
  (* Signal 4: Bollinger bands *)
  vote (DfRow.close latest <? DfRow.bb_lower latest)
       (DfRow.close latest >? DfRow.bb_upper latest)
       counters.

Definition decide (counters : nat * nat) : signal :=
  let (buy_signals, sell_signals) := counters in
  if (2 <=? buy_signals)%nat && (sell_signals =? 0)%nat then BUY
  else if (2 <=? sell_signals)%nat && (buy_signals =? 0)%nat then SELL
  else HOLD.

(** [None]: [df.iloc[-1]] or [df.iloc[-2]] raised [IndexError]. *)
Definition generate_signals (df : list DfRow.t) : option signal :=
  if (length df <? Nat.max (ma_long self) (rsi_period self))%nat
  then Some HOLD
  else
    match rev df with
    | latest :: previous :: _ => Some (decide (count_votes latest previous))
    | _ => None
    end.

(** ** [get_historical_data] *)

(** The frame of the next [fetch_ohlcv] answer, empty when it raised. *)
Definition get_historical_data (s : bot) : list Candle.t * bot :=
  let s' := {| position := position s; last_signal := last_signal s;
               fetches := S (fetches s); sent := sent s; log := log s |} in
  match fetch_ohlcv binance (fetches s) with
  | Some ohlcv => (ohlcv, s')
  | None => ([], logger DataError s')
  end.

(** ** [place_order] *)

(** [None] is the empty dict returned after an exception. *)
Definition place_order (sd : side) (amount : float) (price : option float)
  (s : bot) : option Order.t * bot :=
  let n := length (sent s) in
  let s' := {| position := position s; last_signal := last_signal s;
               fetches := fetches s;
               sent := sent s ++ [mk_request sd amount price];
               log := log s |} in
  let answer :=
    match price with
    | None => create_market_order binance n sd amount
    | Some limit => create_limit_order binance n sd amount limit
    end in
  match answer with
  | Some order => (Some order, logger (OrderPlaced sd amount price) s')
  | None => (None, logger OrderError s')
  end.

(** ** [manage_position] *)

Definition manage_position (current_price : float) (s : bot) : bot :=
  match position s with
  | None => s
  | Some pos =>
      let entry_price := Position.entry_price pos in
      let amount := Position.amount pos in
      match Position.side_ pos with
      | buy =>
          let stop_loss_price :=
            entry_price * (Fin 1 - stop_loss_pct self) in
          let take_profit_price :=
            entry_price * (Fin 1 + take_profit_pct self) in
          if current_price <=? stop_loss_price then
            let s := logger (StopLoss current_price) s in
            let s := snd (place_order sell amount None s) in
            set_position None s
          else if current_price >=? take_profit_price then
            let s := logger (TakeProfit current_price) s in
            let s := snd (place_order sell amount None s) in
            set_position None s
          else s
      | sell =>
          let stop_loss_price :=
            entry_price * (Fin 1 + stop_loss_pct self) in
          let take_profit_price :=
            entry_price * (Fin 1 - take_profit_pct self) in
          if current_price >=? stop_loss_price then
            let s := logger (StopLoss current_price) s in
            let s := snd (place_order buy amount None s) in
            set_position None s
          else if current_price <=? take_profit_price then
            let s := logger (TakeProfit current_price) s in
            let s := snd (place_order buy amount None s) in
            set_position None s
          else s
      end
  end.

(** ** [run_strategy] *)

(** The branch taken when no position is open after [manage_position]. *)
Definition open_on_signal (sg : signal) (current_price : float) (s : bot)
  : bot :=
  let opened (sd : side) : Position.t :=
    {| Position.side_ := sd;
       Position.amount := trade_amount self;
       Position.entry_price := current_price;
       Position.timestamp := now binance (fetches s) |} in
  match sg with
  | BUY =>
      if last_signal_differs s BUY then
        let s := logger (BuySignal current_price) s in
        let (order, s) := place_order buy (trade_amount self) None s in
        let s := match order with
                 | Some _ => set_position (Some (opened buy)) s
                 | None => s
                 end in
        set_last_signal BUY s
      else s
  | SELL =>
      if last_signal_differs s SELL then
        let s := logger (SellSignal current_price) s in
        let (order, s) := place_order sell (trade_amount self) None s in
        let s := match order with
                 | Some _ => set_position (Some (opened sell)) s
                 | None => s
                 end in
        set_last_signal SELL s
      else s
  | HOLD => set_last_signal HOLD s
  end.

Definition log_cycle (current_price : float) (s : bot) : bot :=
  logger (CycleInfo current_price (last_signal s)
            (match position s with Some _ => true | None => false end)) s.

(** One iteration; an exception inside the [try] ends it with the state
    reached so far and an error line. *)
Definition run_strategy (s : bot) : bot :=
  let (ohlcv, s) := get_historical_data s in
  match ohlcv with
  | [] => s
  | _ :: _ =>
      let df := calculate_indicators ohlcv in
      let current_price := last (map DfRow.close df) NaN in
      let s := manage_position current_price s in
      match position s with
      | Some _ => log_cycle current_price s
      | None =>
          match generate_signals df with
          | Some sg =>
              log_cycle current_price (open_on_signal sg current_price s)
          | None => logger StrategyError s
          end
      end
  end.

(** ** [run] *)

(** The first [n] iterations of the [while True] loop. *)
Fixpoint run (n : nat) (s : bot) : bot :=
  match n with
  | O => s
  | S n' => run n' (run_strategy s)
  end.

End Methods.

(* ================================================================== *)
(** * What the specification says, in its own terms *)
(* ================================================================== *)

Section Specification.

Variable self : config.

(** ** The four sub-signals of the voting rule *)

(** A sub-signal contributes to the buy count or to the sell count,
    never to both. *)
Inductive ballot : Type := for_buy | for_sell | abstain.

Definition cast (buy_if sell_if : bool) : ballot :=
  if buy_if then for_buy else if sell_if then for_sell else abstain.

(** Crossing above: was [<=], now [>]; crossing below: was [>=], now [<]. *)
Definition crosses_above (a b a_prev b_prev : float) : bool :=
  (a >? b) && (a_prev <=? b_prev).
Definition crosses_below (a b a_prev b_prev : float) : bool :=
  (a <? b) && (a_prev >=? b_prev).

Definition ma_crossover (latest previous : DfRow.t) : ballot :=
  cast (crosses_above (DfRow.ma_short latest) (DfRow.ma_long latest)
                      (DfRow.ma_short previous) (DfRow.ma_long previous))
       (crosses_below (DfRow.ma_short latest) (DfRow.ma_long latest)
                      (DfRow.ma_short previous) (DfRow.ma_long previous)).

Definition rsi_threshold (latest : DfRow.t) : ballot :=
  cast (DfRow.rsi latest <? rsi_oversold self)
       (DfRow.rsi latest >? rsi_overbought self).

Definition macd_crossover (latest previous : DfRow.t) : ballot :=
  cast (crosses_above (DfRow.macd latest) (DfRow.macd_signal latest)
                      (DfRow.macd previous) (DfRow.macd_signal previous))
       (crosses_below (DfRow.macd latest) (DfRow.macd_signal latest)
                      (DfRow.macd previous) (DfRow.macd_signal previous)).

Definition bollinger_breakout (latest : DfRow.t) : ballot :=
  cast (DfRow.close latest <? DfRow.bb_lower latest)
       (DfRow.close latest >? DfRow.bb_upper latest).

Definition sub_signals (latest previous : DfRow.t) : list ballot :=
  [ma_crossover latest previous; rsi_threshold latest;
   macd_crossover latest previous; bollinger_breakout latest].

Definition is_buy (v : ballot) : bool :=
  match v with for_buy => true | _ => false end.
Definition is_sell (v : ballot) : bool :=
  match v with for_sell => true | _ => false end.

Definition buy_votes (latest previous : DfRow.t) : nat :=
  length (filter is_buy (sub_signals latest previous)).

Definition sell_votes (latest previous : DfRow.t) : nat :=
  length (filter is_sell (sub_signals latest previous)).

(** ** The exit thresholds of an open position *)

Definition stop_loss_hit (pos : Position.t) (price : float) : bool :=
  match Position.side_ pos with
  | buy => price <=? Position.entry_price pos * (Fin 1 - stop_loss_pct self)
  | sell => price >=? Position.entry_price pos * (Fin 1 + stop_loss_pct self)
  end.

Definition take_profit_hit (pos : Position.t) (price : float) : bool :=
  match Position.side_ pos with
  | buy => price >=? Position.entry_price pos * (Fin 1 + take_profit_pct self)
  | sell => price <=? Position.entry_price pos * (Fin 1 - take_profit_pct self)
  end.

(** The order that closes a position: the opposite side, its quantity,
    at market. *)
Definition closing_request (pos : Position.t) : request :=
  {| req_side := match Position.side_ pos with buy => sell | sell => buy end;
     req_amount := Position.amount pos;
     req_price := None |}.

(** The order that opens a position on a signal. *)
Definition entry_side (sg : signal) : option side :=
  match sg with
  | BUY => Some buy
  | SELL => Some sell
  | HOLD => None
  end.

Definition entry_request (sd : side) : request :=
  {| req_side := sd; req_amount := trade_amount self; req_price := None |}.

End Specification.

(** ** The range of the RSI *)

(** Missing, or finite and not negative. *)
Definition nonneg (x : float) : Prop :=
  x = NaN \/ exists q, x = Fin q /\ 0 <= q.

(** Defined and between 0 and 100. *)
Definition in_rsi_range (x : float) : Prop :=
  exists v, x = Fin v /\ 0 <= v <= 100.

(** What the specification asks of the RSI column: every defined value
    lies in [0, 100], and the value is 100 wherever the average loss is
    zero. *)
Definition rsi_bounded_and_saturating {sq : Sqrt} (self : config)
  (close : list float) : Prop :=
  let avg_loss := loss self (delta close) in
  let rsi_column := df_rsi (indicator_columns self close) in
  (forall i v, nth i rsi_column NaN = Fin v -> 0 <= v <= 100)
  /\ (forall i, nth i avg_loss NaN =f= Fin 0 ->
                nth i rsi_column NaN =f= Fin 100).

(** ** No look-ahead *)

(** A series operation looks at the past only: what it yields on a
    prefix is the prefix of what it yields on the whole. *)
Definition causal (f : list float -> list float) : Prop :=
  forall (n : nat) (xs : list float), f (firstn n xs) = firstn n (f xs).

(** ** Exponential moving averages *)

(** The recursive smoothing the specification describes:
    [y_0 = x_0], [y_t = alpha * x_t + (1 - alpha) * y_(t-1)] with
    [alpha = 2 / (span + 1)]. *)
Fixpoint ema_recursive_from (alpha prev : float) (xs : list float)
  : list float :=
  match xs with
  | [] => []
  | x :: rest =>
      let y := alpha * x + (Fin 1 - alpha) * prev in
      y :: ema_recursive_from alpha y rest
  end.

Definition ema_recursive (span : Q) (xs : list float) : list float :=
  match xs with
  | [] => []
  | x :: rest => x :: ema_recursive_from (Fin (2 / (span + 1))) x rest
  end.

Definition Qsum (qs : list Q) : Q := fold_right Qplus 0%Q qs.

Fixpoint Qpow (b : Q) (k : nat) : Q :=
  match k with
  | O => 1%Q
  | S k' => (b * Qpow b k')%Q
  end.

(** The weights [beta^0 .. beta^t], newest value first, and the values
    [x_t .. x_0] under them. *)
Definition weights_total (beta : Q) (t : nat) : Q :=
  Qsum (map (Qpow beta) (seq 0 (S t))).

Definition weighted_total (beta : Q) (xs : list Q) (t : nat) : Q :=
  Qsum (map (fun k => Qpow beta k * nth (t - k) xs 0)%Q (seq 0 (S t))).

(** The average of [x_0 .. x_t] with weights [(1 - alpha)^(t - i)]. *)
Definition weighted_average (alpha : Q) (xs : list Q) (t : nat) : Q :=
  (weighted_total (1 - alpha) xs t / weights_total (1 - alpha) t)%Q.

(** The state of pandas' loop after the value of index [t], when it
    carries the weighted average of [x_0 .. x_t] and the sum of its
    weights. *)
Definition ewm_tracks (alpha : Q) (xs : list Q) (t : nat)
  (st : Series.ewm_state) : Prop :=
  exists w o : Q,
    Series.weighted st = Fin w /\ Series.old_wt st = Fin o
    /\ (w == weighted_average alpha xs t)%Q
    /\ (o == weights_total (1 - alpha) t)%Q
    /\ (1 <= Series.nobs st)%nat.

(** What the specification says of the MACD columns: line and signal are
    built from recursively smoothed averages of spans 12, 26 and 9. *)
Definition macd_is_recursive_ema (close : list float) : Prop :=
  let line := macd (exp1 close) (exp2 close) in
  Forall2 Float.same line
    (Series.map2 Float.sub (ema_recursive 12 close) (ema_recursive 26 close))
  /\ Forall2 Float.same (macd_signal line) (ema_recursive 9 line).

(** ** One cycle seen from outside *)

Section Cycle.

Context {sq : Sqrt}.
Variable self : config.
Variable binance : exchange.

(** The signal the [k]-th fetch leads to, when it yields candles. *)
Definition fetched_signal (k : nat) : option signal :=
  match fetch_ohlcv binance k with
  | Some (c :: cs) =>
      generate_signals self (calculate_indicators self (c :: cs))
  | _ => None
  end.

(** The price the [k]-th fetch ends on. *)
Definition fetched_price (k : nat) : float :=
  match fetch_ohlcv binance k with
  | Some ohlcv => last (map Candle.close ohlcv) NaN
  | None => NaN
  end.

(** The state in which a cycle consults the signal: data fetched and the
    open position, if any, managed. *)
Definition after_manage (s : bot) : bot :=
  manage_position self binance (fetched_price (fetches s))
    (snd (get_historical_data binance s)).

End Cycle.

(* ================================================================== *)
(** * Sample data *)
(* ================================================================== *)

(** A square root on the rationals: rounded down to a multiple of
    [2^-52]. *)
Definition sqrt_floor : Sqrt :=
  fun q => Qred (Qmake (Z.sqrt (Qnum q * 2 ^ 104 / Zpos (Qden q))) (2 ^ 52)).

(** A bar that opens, peaks, bottoms and closes at [c]. *)
Definition flat_bar (c : Q) : Candle.t :=
  {| Candle.timestamp := 0; Candle.open := Fin c; Candle.high := Fin c;
     Candle.low := Fin c; Candle.close := Fin c; Candle.volume := Fin 1 |}.

Definition bars (closes : list Q) : list Candle.t := map flat_bar closes.

(** 24 bars sliding from 100 by 0.1 a bar, then a drop to 90;
    the mirror image; and 25 bars at 100. *)
Definition falling : list Candle.t :=
  bars (map (fun i => 100 - inject_Z (Z.of_nat i) / 10) (seq 0 24) ++ [90])%Q.

Definition rising : list Candle.t :=
  bars (map (fun i => 100 + inject_Z (Z.of_nat i) / 10) (seq 0 24) ++ [110])%Q.

Definition steady : list Candle.t := bars (repeat 100%Q 25).

(** A row whose indicators are all missing, closing at [c]. *)
Definition bare_row (c : Q) : DfRow.t :=
  {| DfRow.bar := flat_bar c;
     DfRow.ma_short := NaN; DfRow.ma_long := NaN; DfRow.rsi := NaN;
     DfRow.macd := NaN; DfRow.macd_signal := NaN; DfRow.macd_histogram := NaN;
     DfRow.bb_middle := NaN; DfRow.bb_upper := NaN; DfRow.bb_lower := NaN |}.

(** A row closing at [c] with the given RSI and Bollinger bands and no
    other indicator. *)
Definition rsi_bb_row (c r upper lower : Q) : DfRow.t :=
  {| DfRow.bar := flat_bar c;
     DfRow.ma_short := NaN; DfRow.ma_long := NaN; DfRow.rsi := Fin r;
     DfRow.macd := NaN; DfRow.macd_signal := NaN; DfRow.macd_histogram := NaN;
     DfRow.bb_middle := NaN; DfRow.bb_upper := Fin upper;
     DfRow.bb_lower := Fin lower |}.

(** A long position of 0.001 entered at 100. *)
Definition long_at_100 : Position.t :=
  {| Position.side_ := buy; Position.amount := Fin (1 # 1000);
     Position.entry_price := Fin 100; Position.timestamp := 0 |}.

Definition holding (pos : Position.t) : bot :=
  {| position := Some pos; last_signal := Some BUY;
     fetches := 0; sent := []; log := [] |}.

Definition filled_order (p : Q) : Order.t :=
  {| Order.id := 1; Order.price := Fin p; Order.filled := Fin (1 # 1000) |}.

(** An exchange that serves the same candles at every fetch and answers
    every order the same way. *)
Definition fixed_exchange (ohlcv : list Candle.t) (answer : option Order.t)
  : exchange :=
  {| fetch_ohlcv := fun _ => Some ohlcv;
     create_market_order := fun _ _ _ => answer;
     create_limit_order := fun _ _ _ _ => answer;
     now := fun _ => 0%Z |}.

(** No position open, [last] the last signal recorded. *)
Definition idle (last : option signal) : bot :=
  {| position := None; last_signal := last;
     fetches := 0; sent := []; log := [] |}.

(** An exchange that serves [falling] at every fetch but the third,
    where it serves [steady], and rejects every order. *)
Definition rejecting_exchange : exchange :=
  {| fetch_ohlcv := fun k => Some (if (k =? 2)%nat then steady else falling);
     create_market_order := fun _ _ _ => None;
     create_limit_order := fun _ _ _ _ => None;
     now := fun _ => 0%Z |}.

(* ================================================================== *)
(** * Further notions *)
(* ================================================================== *)

(** ** Orders and positions sized by the configuration *)

(** A market order for [trade_amount]. *)
Definition configured_order (self : config) (r : request) : Prop :=
  req_amount r = trade_amount self /\ req_price r = None.

(** Every order sent so far is a market order for [trade_amount], and so
    is the size of the position held, if any. *)
Definition sized_by_config (self : config) (s : bot) : Prop :=
  Forall (configured_order self) (sent s)
  /\ match position s with
     | Some pos => Position.amount pos = trade_amount self
     | None => True
     end.

(** ** More sample data *)

(** An exchange whose every fetch raises. *)
Definition dead_exchange : exchange :=
  {| fetch_ohlcv := fun _ => None;
     create_market_order := fun _ _ _ => Some (filled_order 100);
     create_limit_order := fun _ _ _ _ => Some (filled_order 100);
     now := fun _ => 0%Z |}.

(** ** The tests behind the votes, taken one by one *)

Definition buy_tests (self : config) (latest previous : DfRow.t)
  : list bool :=
  [crosses_above (DfRow.ma_short latest) (DfRow.ma_long latest)
     (DfRow.ma_short previous) (DfRow.ma_long previous);
   DfRow.rsi latest <? rsi_oversold self;
   crosses_above (DfRow.macd latest) (DfRow.macd_signal latest)
     (DfRow.macd previous) (DfRow.macd_signal previous);
   DfRow.close latest <? DfRow.bb_lower latest].

Definition sell_tests (self : config) (latest previous : DfRow.t)
  : list bool :=
  [crosses_below (DfRow.ma_short latest) (DfRow.ma_long latest)
     (DfRow.ma_short previous) (DfRow.ma_long previous);
   DfRow.rsi latest >? rsi_overbought self;
   crosses_below (DfRow.macd latest) (DfRow.macd_signal latest)
     (DfRow.macd previous) (DfRow.macd_signal previous);
   DfRow.close latest >? DfRow.bb_upper latest].

Definition count_true (tests : list bool) : nat :=
  length (filter (fun t : bool => t) tests).

(** ** Simple moving average *)

(** The mean of the [w] values ending at index [i]. *)
Definition sma (w : nat) (qs : list Q) (i : nat) : Q :=
  (Qsum (skipn (S i - w) (firstn (S i) qs)) / inject_Z (Z.of_nat w))%Q.

(** [x] is what a rolling mean of window [w] holds at index [i]: missing
    until the window is full (and always for an empty window), the simple
    moving average after that. *)
Definition rolling_mean_at (w : nat) (qs : list Q) (i : nat) (x : float)
  : Prop :=
  if (S i <? w)%nat || (w =? 0)%nat then x = NaN
  else x =f= Fin (sma w qs i).

(** ** Bollinger bands and flat markets *)

(** A square root that is never negative. *)
Definition sqrt_nonneg (sq : Sqrt) : Prop := forall q : Q, (0 <= sqrtQ q)%Q.

(** Missing, or finite. *)
Definition finite_or_missing (x : float) : Prop :=
  x = NaN \/ exists q, x = Fin q.

(** Missing, or the value [p]. *)
Definition flat_or_missing (p : Q) (x : float) : Prop :=
  x = NaN \/ x =f= Fin p.

(** The three bands of a row: all defined and in order at equal
    distances, or the outer two missing. *)
Definition bands_in_order (row : DfRow.t) : Prop :=
  (DfRow.bb_upper row = NaN /\ DfRow.bb_lower row = NaN)
  \/ exists l m u : Q,
       DfRow.bb_lower row = Fin l /\ DfRow.bb_middle row = Fin m
       /\ DfRow.bb_upper row = Fin u
       /\ (l <= m <= u)%Q /\ (u - m == m - l)%Q.

(** A row as a flat market at price [p] leaves it: the close at [p], the
    moving averages and the middle band at [p] or missing, no RSI, the
    MACD line and its signal at zero or missing, the bands in order. *)
Definition quiet_row (p : Q) (row : DfRow.t) : Prop :=
  DfRow.close row =f= Fin p
  /\ flat_or_missing p (DfRow.ma_short row)
  /\ flat_or_missing p (DfRow.ma_long row)
  /\ DfRow.rsi row = NaN
  /\ flat_or_missing 0 (DfRow.macd row)
  /\ flat_or_missing 0 (DfRow.macd_signal row)
  /\ flat_or_missing p (DfRow.bb_middle row)
  /\ bands_in_order row.

(** ** The MACD columns *)

(** The three MACD columns of a row are defined, the histogram being the
    line less its signal. *)
Definition macd_defined (row : DfRow.t) : Prop :=
  exists m s h : Q,
    DfRow.macd row = Fin m /\ DfRow.macd_signal row = Fin s
    /\ DfRow.macd_histogram row = Fin h /\ (h == m - s)%Q.

(** The three MACD columns of a row are zero. *)
Definition macd_at_zero (row : DfRow.t) : Prop :=
  DfRow.macd row =f= Fin 0 /\ DfRow.macd_signal row =f= Fin 0
  /\ DfRow.macd_histogram row =f= Fin 0.

(** ** Gaps in the data *)

(** A candle the exchange delivers without a closing price. *)
Definition gap_bar : Candle.t :=
  {| Candle.timestamp := 0; Candle.open := NaN; Candle.high := NaN;
     Candle.low := NaN; Candle.close := NaN; Candle.volume := NaN |}.

(** ** A short position *)

(** Sold at 85, on a SELL signal. *)
Definition short_at_85 : Position.t :=
  {| Position.side_ := sell; Position.amount := Fin (1 # 1000);
     Position.entry_price := Fin 85; Position.timestamp := 0 |}.

Definition short_since_SELL : bot :=
  {| position := Some short_at_85; last_signal := Some SELL;
     fetches := 0; sent := []; log := [] |}.

(* ================================================================== *)
(** * Properties *)
(* ================================================================== *)

(** ** The voting rule *)

Section Voting.

Variable self : config.

Lemma vote_cast (b s : bool) (x y : nat) :
  vote b s (x, y)
  = (x + length (filter is_buy [cast b s]),
     y + length (filter is_sell [cast b s]))%nat.
Proof. destruct b, s; simpl; f_equal; lia. Qed.

(** The counters the method ends with are the numbers of sub-signals
    that voted each way. *)
Lemma count_votes_spec (latest previous : DfRow.t) :
  count_votes self latest previous
  = (buy_votes self latest previous, sell_votes self latest previous).
Proof.
  unfold count_votes, buy_votes, sell_votes, sub_signals.
  rewrite !vote_cast.
  unfold ma_crossover, rsi_threshold, macd_crossover, bollinger_breakout,
    crosses_above, crosses_below.
  repeat match goal with
         | |- context [cast ?b ?s] => destruct (cast b s)
         end; reflexivity.
Qed.

Lemma decide_BUY (b s : nat) : decide (b, s) = BUY <-> (2 <= b /\ s = 0)%nat.
Proof.
  unfold decide.
  destruct (Nat.leb_spec 2 b), (Nat.eqb_spec s 0),
    (Nat.leb_spec 2 s), (Nat.eqb_spec b 0); simpl;
    split; intros; try discriminate; try lia; auto.
Qed.

Lemma decide_SELL (b s : nat) : decide (b, s) = SELL <-> (2 <= s /\ b = 0)%nat.
Proof.
  unfold decide.
  destruct (Nat.leb_spec 2 b), (Nat.eqb_spec s 0),
    (Nat.leb_spec 2 s), (Nat.eqb_spec b 0); simpl;
    split; intros; try discriminate; try lia; auto.
Qed.

Lemma decide_HOLD (b s : nat) :
  decide (b, s) = HOLD <-> (~ (2 <= b /\ s = 0) /\ ~ (2 <= s /\ b = 0))%nat.
Proof.
  unfold decide.
  destruct (Nat.leb_spec 2 b), (Nat.eqb_spec s 0),
    (Nat.leb_spec 2 s), (Nat.eqb_spec b 0); simpl;
    split; intros; try discriminate; try lia; auto.
Qed.

(** With two rows at its end and the warm-up passed, the frame is
    decided by the votes of those two rows. *)
Lemma generate_signals_warm (front : list DfRow.t) (previous latest : DfRow.t) :
  (Nat.max (ma_long self) (rsi_period self)
     <= length (front ++ [previous; latest]))%nat ->
  generate_signals self (front ++ [previous; latest])
  = Some (decide (buy_votes self latest previous,
                  sell_votes self latest previous)).
Proof.
  intros Hlen. unfold generate_signals.
  destruct (Nat.ltb_spec (length (front ++ [previous; latest]))
              (Nat.max (ma_long self) (rsi_period self))) as [Hlt | _];
    [lia | ].
  rewrite rev_app_distr. simpl.
  now rewrite count_votes_spec.
Qed.

End Voting.

(** C1.  On a frame that has passed the warm-up of
    [max(ma_long, rsi_period)] candles, [generate_signals] returns BUY
    exactly when at least two of the four sub-signals (MA crossover, RSI
    threshold, MACD crossover, Bollinger breakout) vote buy and none votes
    sell, SELL exactly when at least two vote sell and none votes buy, and
    HOLD in every other case; so it never returns BUY when a sell vote was
    cast, nor SELL when a buy vote was cast. *)
Theorem generate_signals_is_consensus_vote
  (self : config) (front : list DfRow.t) (previous latest : DfRow.t) :
  let df := front ++ [previous; latest] in
  let buys := buy_votes self latest previous in
  let sells := sell_votes self latest previous in
  (Nat.max (ma_long self) (rsi_period self) <= length df)%nat ->
  (generate_signals self df = Some BUY <-> (2 <= buys /\ sells = 0)%nat)
  /\ (generate_signals self df = Some SELL <-> (2 <= sells /\ buys = 0)%nat)
  /\ (generate_signals self df = Some HOLD <->
        (~ (2 <= buys /\ sells = 0) /\ ~ (2 <= sells /\ buys = 0))%nat)
  /\ ((0 < sells)%nat -> generate_signals self df <> Some BUY)
  /\ ((0 < buys)%nat -> generate_signals self df <> Some SELL).
Proof.
  intros df buys sells Hlen. subst df.
  rewrite (generate_signals_warm self front previous latest Hlen).
  fold buys sells.
  pose proof (decide_BUY buys sells) as HB.
  pose proof (decide_SELL buys sells) as HS.
  pose proof (decide_HOLD buys sells) as HH.
  assert (Hinj : forall g, Some (decide (buys, sells)) = Some g
                            <-> decide (buys, sells) = g)
    by (intros g; split; [intros E; now injection E | intros E; now f_equal]).
  rewrite !Hinj, HB, HS, HH.
  repeat split; try tauto; lia.
Qed.

(** A frame of twenty rows under the default parameters: the last row has
    an RSI of 20 and closes at 90 under a lower band of 95, which makes two
    buy votes and no sell vote. *)
Lemma generate_signals_is_consensus_vote_witness :
  let df := repeat (bare_row 100) 18
              ++ [bare_row 100; rsi_bb_row 90 20 110 95] in
  (Nat.max (ma_long default_config) (rsi_period default_config)
     <= length df)%nat
  /\ generate_signals default_config df = Some BUY.
Proof.
  split.
  - vm_compute. apply le_n.
  - apply (generate_signals_is_consensus_vote default_config
             (repeat (bare_row 100) 18) (bare_row 100)
             (rsi_bb_row 90 20 110 95)).
    + vm_compute. apply le_n.
    + vm_compute. split; [apply le_n | reflexivity].
Defined.

(** ** Warm-up *)

Section Frame.

Context {sq : Sqrt}.
Variable self : config.

Lemma calculate_indicators_length (ohlcv : list Candle.t) :
  length (calculate_indicators self ohlcv) = length ohlcv.
Proof.
  unfold calculate_indicators.
  rewrite length_map, length_combine, length_seq. apply Nat.min_id.
Qed.

Lemma generate_signals_cold (df : list DfRow.t) :
  (length df < Nat.max (ma_long self) (rsi_period self))%nat ->
  generate_signals self df = Some HOLD.
Proof.
  intros Hlt. unfold generate_signals.
  destruct (Nat.ltb_spec (length df)
              (Nat.max (ma_long self) (rsi_period self))); [reflexivity | lia].
Qed.

End Frame.

(** C5.  With fewer than [max(ma_long, rsi_period)] candles the signal
    generator returns HOLD, whatever the candles and whatever the frame
    built on them holds: a short history is a HOLD, not an error. *)
Theorem insufficient_warmup_is_hold
  {sq : Sqrt} (self : config) (ohlcv : list Candle.t) :
  (length ohlcv < Nat.max (ma_long self) (rsi_period self))%nat ->
  generate_signals self (calculate_indicators self ohlcv) = Some HOLD
  /\ forall df : list DfRow.t,
       length df = length ohlcv -> generate_signals self df = Some HOLD.
Proof.
  intros Hlt. split.
  - apply generate_signals_cold. now rewrite calculate_indicators_length.
  - intros df Hdf. apply generate_signals_cold. now rewrite Hdf.
Qed.

(** Nineteen candles under the default parameters. *)
Lemma insufficient_warmup_is_hold_witness :
  (length (firstn 19 falling)
     < Nat.max (ma_long default_config) (rsi_period default_config))%nat
  /\ generate_signals default_config
       (calculate_indicators (sq := sqrt_floor) default_config
          (firstn 19 falling))
     = Some HOLD.
Proof.
  split.
  - vm_compute. apply le_n.
  - refine (proj1 (insufficient_warmup_is_hold (sq := sqrt_floor)
                     default_config (firstn 19 falling) _)).
    vm_compute. apply le_n.
Defined.

(** ** Managing an open position *)

Section Exits.

Variable self : config.
Variable binance : exchange.

Lemma place_order_sent (sd : side) (amount : float) (price : option float)
  (s : bot) :
  sent (snd (place_order binance sd amount price s))
  = sent s ++ [mk_request sd amount price].
Proof.
  unfold place_order.
  destruct price; [destruct (create_limit_order _ _ _ _ _)
                  | destruct (create_market_order _ _ _ _)]; reflexivity.
Qed.

Lemma place_order_log (sd : side) (amount : float) (s : bot) :
  exists m, log (snd (place_order binance sd amount None s)) = log s ++ [m].
Proof.
  unfold place_order.
  destruct (create_market_order _ _ _ _); eexists; reflexivity.
Qed.

Lemma place_order_keeps (sd : side) (amount : float) (price : option float)
  (s : bot) :
  let s' := snd (place_order binance sd amount price s) in
  position s' = position s /\ last_signal s' = last_signal s
  /\ fetches s' = fetches s.
Proof.
  unfold place_order.
  destruct price; [destruct (create_limit_order _ _ _ _ _)
                  | destruct (create_market_order _ _ _ _)]; repeat split.
Qed.

(** What [manage_position] does to an open position, by the two
    thresholds. *)
Lemma manage_position_cases (s : bot) (pos : Position.t) (price : float) :
  position s = Some pos ->
  let s' := manage_position self binance price s in
  match stop_loss_hit self pos price, take_profit_hit self pos price with
  | true, _ =>
      s' = set_position None
             (snd (place_order binance (req_side (closing_request pos))
                     (Position.amount pos) None
                     (logger (StopLoss price) s)))
  | false, true =>
      s' = set_position None
             (snd (place_order binance (req_side (closing_request pos))
                     (Position.amount pos) None
                     (logger (TakeProfit price) s)))
  | false, false => s' = s
  end.
Proof.
  intros Hpos. unfold manage_position, stop_loss_hit, take_profit_hit.
  rewrite Hpos. simpl.
  destruct (Position.side_ pos); simpl;
    repeat match goal with
           | |- context [if ?c then _ else _] => destruct c
           end; reflexivity.
Qed.

End Exits.

(** C2.  For an open position and a price, [manage_position] closes a
    long position -- one sell order for the position's quantity, position
    cleared -- exactly when the price is at or below
    [entry * (1 - stop_loss_pct)] or at or above
    [entry * (1 + take_profit_pct)], closes a short position with a buy
    order exactly when the price is at or above
    [entry * (1 + stop_loss_pct)] or at or below
    [entry * (1 - take_profit_pct)], and changes nothing otherwise.  The
    stop-loss is tested first: when it holds the exit is logged as a
    stop-loss whatever the take-profit test says.  With an entry at 100
    and the default 2 % stop-loss, 97.9 closes a long position and 98.1
    leaves it open. *)
Theorem manage_position_closes_on_thresholds
  (self : config) (binance : exchange) (s : bot) (pos : Position.t)
  (price : float) :
  position s = Some pos ->
  let s' := manage_position self binance price s in
  let entry := Position.entry_price pos in
  let stop_loss :=
    match Position.side_ pos with
    | buy => price <=? entry * (Fin 1 - stop_loss_pct self)
    | sell => price >=? entry * (Fin 1 + stop_loss_pct self)
    end in
  let take_profit :=
    match Position.side_ pos with
    | buy => price >=? entry * (Fin 1 + take_profit_pct self)
    | sell => price <=? entry * (Fin 1 - take_profit_pct self)
    end in
  let closing :=
    {| req_side := match Position.side_ pos with buy => sell | sell => buy end;
       req_amount := Position.amount pos;
       req_price := None |} in
  (position s' = None <-> stop_loss || take_profit = true)
  /\ (stop_loss || take_profit = true -> sent s' = sent s ++ [closing])
  /\ (stop_loss || take_profit = false -> s' = s)
  /\ (stop_loss = true ->
        exists m, log s' = log s ++ [StopLoss price; m])
  /\ (stop_loss = false -> take_profit = true ->
        exists m, log s' = log s ++ [TakeProfit price; m])
  /\ (forall s0 : bot,
        position s0 = Some long_at_100 ->
        position (manage_position default_config binance
                    (Fin (979 # 10)) s0) = None
        /\ manage_position default_config binance (Fin (981 # 10)) s0 = s0).
Proof.
  intros Hpos s' entry stop_loss take_profit closing.
  pose proof (manage_position_cases self binance s pos price Hpos) as Hcases.
  fold s' in Hcases.
  change (stop_loss_hit self pos price) with stop_loss in Hcases.
  change (take_profit_hit self pos price) with take_profit in Hcases.
  change (req_side (closing_request pos)) with (req_side closing) in Hcases.
  assert (Hclose : forall m,
    s' = set_position None
           (snd (place_order binance (req_side closing) (Position.amount pos)
                   None (logger m s))) ->
    position s' = None /\ sent s' = sent s ++ [closing]
    /\ exists m', log s' = log s ++ [m; m']).
  { intros m ->.
    destruct (place_order_log binance (req_side closing)
                (Position.amount pos) (logger m s)) as [m' Hm'].
    pose proof (place_order_sent binance (req_side closing)
                  (Position.amount pos) None (logger m s)) as Hsent.
    unfold set_position; cbn [position sent log].
    split; [reflexivity | split].
    - rewrite Hsent. reflexivity.
    - exists m'. rewrite Hm'. cbn [logger log].
      now rewrite <- app_assoc. }
  repeat split.
  - intros Hnone. destruct stop_loss, take_profit; auto.
    rewrite Hcases, Hpos in Hnone. discriminate.
  - intros Hhit. destruct stop_loss, take_profit; try discriminate;
      now apply Hclose in Hcases.
  - intros Hhit. destruct stop_loss, take_profit; try discriminate;
      now apply Hclose in Hcases.
  - intros Hhit. destruct stop_loss, take_profit; try discriminate.
    exact Hcases.
  - intros Hstop. rewrite Hstop in Hcases. now apply Hclose in Hcases.
  - intros Hstop Htake. rewrite Hstop, Htake in Hcases.
    now apply Hclose in Hcases.
  - pose proof (manage_position_cases default_config binance s0
                  long_at_100 (Fin (979 # 10)) H) as Hc.
    change (stop_loss_hit default_config long_at_100 (Fin (979 # 10)))
      with true in Hc.
    simpl in Hc. rewrite Hc. reflexivity.
  - exact (manage_position_cases default_config binance s0
             long_at_100 (Fin (981 # 10)) H).
Qed.

(** A short position entered at 100, at the price of 104 where the
    default take-profit of a long one would sit: the stop-loss of 102 is
    hit. *)
Lemma manage_position_closes_on_thresholds_witness :
  let short_at_100 :=
    {| Position.side_ := sell; Position.amount := Fin (1 # 1000);
       Position.entry_price := Fin 100; Position.timestamp := 0 |} in
  let binance := fixed_exchange steady (Some (filled_order 104)) in
  position (holding short_at_100) = Some short_at_100
  /\ sent (manage_position default_config binance (Fin 104)
             (holding short_at_100))
     = [mk_request buy (Fin (1 # 1000)) None].
Proof.
  intros short_at_100 binance. split; [reflexivity | ].
  refine (proj1 (proj2 (manage_position_closes_on_thresholds
                          default_config binance (holding short_at_100)
                          short_at_100 (Fin 104) eq_refl)) _).
  reflexivity.
Defined.

(** C4 (the code departs from it).  A long position entered at 100, the
    price at 97, and an exchange that rejects every order: the stop-loss
    fires, the closing order fails, and the position is dropped all the
    same. *)
Theorem rejected_close_still_clears_position :
  let binance := fixed_exchange steady None in
  let s' := manage_position default_config binance (Fin 97)
              (holding long_at_100) in
  position s' = None
  /\ sent s' = [mk_request sell (Fin (1 # 1000)) None]
  /\ log s' = [StopLoss (Fin 97); OrderError].
Proof. repeat split. Qed.

(** ** One strategy cycle *)

Section Cycles.

Context {sq : Sqrt}.
Variable self : config.
Variable binance : exchange.

Lemma map_snd_combine_seq (A B : Type) (f : nat -> A -> B) (g : A -> B)
  (l : list A) :
  (forall i a, f i a = g a) ->
  forall start,
    map (fun ia : nat * A => f (fst ia) (snd ia))
        (combine (seq start (length l)) l)
    = map g l.
Proof.
  intros Hfg. induction l as [ | a l IH]; intros start; simpl.
  - reflexivity.
  - now rewrite Hfg, IH.
Qed.

(** The frame keeps the [close] column of the candles it was built on. *)
Lemma calculate_indicators_close (ohlcv : list Candle.t) :
  map DfRow.close (calculate_indicators self ohlcv) = map Candle.close ohlcv.
Proof.
  unfold calculate_indicators. rewrite map_map.
  apply (map_snd_combine_seq _ _
           (fun i b => DfRow.close
                         (frame_row
                            (indicator_columns self (map Candle.close ohlcv))
                            i b))
           Candle.close).
  reflexivity.
Qed.

Lemma manage_position_none (price : float) (s : bot) :
  position s = None -> manage_position self binance price s = s.
Proof. intros H. unfold manage_position. now rewrite H. Qed.

Lemma manage_position_keeps (price : float) (s : bot) :
  let s' := manage_position self binance price s in
  last_signal s' = last_signal s /\ fetches s' = fetches s.
Proof.
  destruct (position s) as [pos | ] eqn:Hpos.
  - pose proof (manage_position_cases self binance s pos price Hpos) as Hc.
    simpl. simpl in Hc.
    destruct (stop_loss_hit self pos price), (take_profit_hit self pos price);
      rewrite Hc; unfold set_position; cbn [last_signal fetches];
      try (split; reflexivity);
      match goal with
      | |- context [place_order binance ?sd ?a ?p ?s0] =>
          destruct (place_order_keeps binance sd a p s0) as (_ & Hl & Hf)
      end; split; assumption.
  - simpl. now rewrite manage_position_none.
Qed.

(** A cycle whose fetch yields candles: the position is managed at the
    last close, and the signal is consulted when no position is left. *)
Lemma run_strategy_fetched (s : bot) (c : Candle.t) (cs : list Candle.t) :
  fetch_ohlcv binance (fetches s) = Some (c :: cs) ->
  let price := fetched_price binance (fetches s) in
  let s1 := after_manage self binance s in
  run_strategy self binance s
  = match position s1 with
    | Some _ => log_cycle price s1
    | None =>
        match fetched_signal self binance (fetches s) with
        | Some sg => log_cycle price (open_on_signal self binance sg price s1)
        | None => logger StrategyError s1
        end
    end.
Proof.
  intros Hfetch. simpl.
  unfold run_strategy, after_manage, fetched_signal, fetched_price,
    get_historical_data.
  rewrite Hfetch. cbn [snd].
  now rewrite calculate_indicators_close.
Qed.

(** A cycle whose fetch fails or comes back empty changes neither the
    position, nor the last signal, nor the orders sent. *)
Lemma run_strategy_no_data (s : bot) :
  fetch_ohlcv binance (fetches s) = None
  \/ fetch_ohlcv binance (fetches s) = Some [] ->
  let s' := run_strategy self binance s in
  position s' = position s /\ last_signal s' = last_signal s
  /\ sent s' = sent s /\ fetches s' = S (fetches s).
Proof.
  intros [H | H]; unfold run_strategy, get_historical_data; rewrite H;
    repeat split.
Qed.

Lemma log_cycle_keeps (price : float) (s : bot) :
  let s' := log_cycle price s in
  position s' = position s /\ last_signal s' = last_signal s
  /\ sent s' = sent s /\ fetches s' = fetches s.
Proof. repeat split. Qed.

Lemma last_signal_differs_iff (s : bot) (sg : signal) :
  last_signal_differs s sg = true <-> last_signal s <> Some sg.
Proof.
  unfold last_signal_differs. destruct (last_signal s) as [g | ].
  - destruct g, sg; simpl; split; intros; try discriminate; try congruence;
      try (exfalso; apply H; reflexivity).
  - split; intros; [discriminate | reflexivity].
Qed.

(** The entry branch, when the signal repeats the last one or is HOLD:
    nothing is asked of the exchange. *)
Lemma open_on_signal_quiet (sg : signal) (price : float) (s : bot) :
  last_signal s = Some sg \/ sg = HOLD ->
  let s' := open_on_signal self binance sg price s in
  sent s' = sent s /\ position s' = position s
  /\ last_signal s' = Some sg /\ fetches s' = fetches s.
Proof.
  intros Hquiet. unfold open_on_signal.
  destruct sg.
  - destruct Hquiet as [Hlast | ?]; [ | discriminate].
    unfold last_signal_differs. rewrite Hlast. simpl. now repeat split.
  - destruct Hquiet as [Hlast | ?]; [ | discriminate].
    unfold last_signal_differs. rewrite Hlast. simpl. now repeat split.
  - repeat split.
Qed.

(** The entry branch on a BUY or SELL that differs from the last signal:
    one market order for [trade_amount]; a position at the current price
    when the exchange confirms it, none otherwise; the signal recorded
    either way. *)
Lemma open_on_signal_fresh (sg : signal) (sd : side) (price : float)
  (s : bot) :
  entry_side sg = Some sd ->
  last_signal s <> Some sg ->
  let s' := open_on_signal self binance sg price s in
  sent s' = sent s ++ [entry_request self sd]
  /\ last_signal s' = Some sg
  /\ fetches s' = fetches s
  /\ position s'
     = match create_market_order binance (length (sent s)) sd
               (trade_amount self) with
       | Some _ =>
           Some {| Position.side_ := sd;
                   Position.amount := trade_amount self;
                   Position.entry_price := price;
                   Position.timestamp := now binance (fetches s) |}
       | None => position s
       end.
Proof.
  intros Hside Hfresh. apply last_signal_differs_iff in Hfresh.
  unfold open_on_signal.
  destruct sg; try discriminate; injection Hside as <-;
    rewrite Hfresh; unfold place_order; cbn [logger sent log];
    destruct (create_market_order _ _ _ _); repeat split.
Qed.

End Cycles.

Section Orchestrator.

Context {sq : Sqrt}.
Variable self : config.
Variable binance : exchange.

Lemma get_historical_data_keeps (s : bot) :
  let s' := snd (get_historical_data binance s) in
  position s' = position s /\ last_signal s' = last_signal s
  /\ sent s' = sent s /\ fetches s' = S (fetches s).
Proof.
  unfold get_historical_data.
  destruct (fetch_ohlcv binance (fetches s)); repeat split.
Qed.

Lemma fetched_signal_candles (k : nat) (sg : signal) :
  fetched_signal self binance k = Some sg ->
  exists c cs, fetch_ohlcv binance k = Some (c :: cs).
Proof.
  unfold fetched_signal.
  destruct (fetch_ohlcv binance k) as [[ | c cs] | ]; try discriminate.
  intros _. now exists c, cs.
Qed.

Lemma after_manage_keeps (s : bot) :
  let s1 := after_manage self binance s in
  last_signal s1 = last_signal s /\ fetches s1 = S (fetches s).
Proof.
  unfold after_manage.
  destruct (manage_position_keeps self binance
              (fetched_price binance (fetches s))
              (snd (get_historical_data binance s))) as [Hl Hf].
  destruct (get_historical_data_keeps s) as (_ & Hl' & _ & Hf').
  simpl. split; congruence.
Qed.

Lemma after_manage_idle (s : bot) :
  position s = None ->
  after_manage self binance s = snd (get_historical_data binance s).
Proof.
  intros Hpos. unfold after_manage. apply manage_position_none.
  now rewrite (proj1 (get_historical_data_keeps s)).
Qed.

(** A cycle that reaches the signal with no position open. *)
Lemma run_strategy_on_signal (s : bot) (sg : signal) :
  position (after_manage self binance s) = None ->
  fetched_signal self binance (fetches s) = Some sg ->
  run_strategy self binance s
  = log_cycle (fetched_price binance (fetches s))
      (open_on_signal self binance sg (fetched_price binance (fetches s))
         (after_manage self binance s)).
Proof.
  intros Hpos Hsig.
  destruct (fetched_signal_candles _ _ Hsig) as (c & cs & Hfetch).
  rewrite (run_strategy_fetched self binance s c cs Hfetch).
  cbv zeta. now rewrite Hpos, Hsig.
Qed.

(** The same, for a cycle that starts with no position. *)
Lemma idle_cycle (s : bot) (sg : signal) :
  position s = None ->
  fetched_signal self binance (fetches s) = Some sg ->
  let s' := run_strategy self binance s in
  fetches s' = S (fetches s)
  /\ (last_signal s = Some sg \/ sg = HOLD ->
        position s' = None /\ last_signal s' = Some sg /\ sent s' = sent s)
  /\ (forall sd, entry_side sg = Some sd -> last_signal s <> Some sg ->
        sent s' = sent s ++ [entry_request self sd]
        /\ last_signal s' = Some sg
        /\ (create_market_order binance (length (sent s)) sd
              (trade_amount self) = None -> position s' = None)).
Proof.
  intros Hpos Hsig.
  assert (Hidle := after_manage_idle s Hpos).
  destruct (get_historical_data_keeps s) as (Hp & Hl & Hs & Hf).
  simpl in Hp, Hl, Hs, Hf.
  rewrite run_strategy_on_signal with (sg := sg);
    [ | rewrite Hidle; congruence | assumption ].
  rewrite Hidle. cbv zeta.
  set (s0 := snd (get_historical_data binance s)) in *.
  set (price := fetched_price binance (fetches s)).
  split; [ | split].
  - destruct (last_signal_differs s0 sg) eqn:Hd.
    + apply last_signal_differs_iff in Hd.
      destruct (entry_side sg) as [sd | ] eqn:Hside.
      * destruct (open_on_signal_fresh self binance sg sd price s0 Hside Hd)
          as (_ & _ & Hf' & _).
        cbn [log_cycle logger fetches]. congruence.
      * destruct sg; try discriminate.
        cbn [log_cycle logger fetches open_on_signal set_last_signal].
        exact Hf.
    + assert (Hq : last_signal s0 = Some sg).
      { destruct (last_signal s0) as [g | ] eqn:Hg;
          unfold last_signal_differs in Hd; rewrite Hg in Hd;
          [ | discriminate].
        destruct g, sg; simpl in Hd; try discriminate; reflexivity. }
      destruct (open_on_signal_quiet self binance sg price s0 (or_introl Hq))
        as (_ & _ & _ & Hf').
      cbn [log_cycle logger fetches]. congruence.
  - intros Hquiet.
    assert (Hq : last_signal s0 = Some sg \/ sg = HOLD)
      by (destruct Hquiet; [left; congruence | now right]).
    destruct (open_on_signal_quiet self binance sg price s0 Hq)
      as (Hs' & Hp' & Hl' & _).
    cbn [log_cycle logger position last_signal sent].
    repeat split; congruence.
  - intros sd Hside Hfresh.
    assert (Hd : last_signal s0 <> Some sg) by congruence.
    destruct (open_on_signal_fresh self binance sg sd price s0 Hside Hd)
      as (Hs' & Hl' & _ & Hp').
    cbn [log_cycle logger position last_signal sent].
    repeat split; try congruence.
    intros Hreject. rewrite Hp', Hs, Hreject. congruence.
Qed.

Lemma run_snoc (n : nat) (s : bot) :
  run self binance (S n) s = run_strategy self binance (run self binance n s).
Proof.
  revert s. induction n as [ | n IH]; intros s.
  - reflexivity.
  - change (run self binance (S (S n)) s)
      with (run self binance (S n) (run_strategy self binance s)).
    now rewrite IH.
Qed.

End Orchestrator.

(** ** The sample series *)

Lemma falling_signals_BUY :
  generate_signals default_config
    (calculate_indicators (sq := sqrt_floor) default_config falling)
  = Some BUY.
Proof. vm_compute. reflexivity. Qed.

Lemma steady_signals_HOLD :
  generate_signals default_config
    (calculate_indicators (sq := sqrt_floor) default_config steady)
  = Some HOLD.
Proof. vm_compute. reflexivity. Qed.

(** C8.  In a cycle that reaches the signal with no position open, an
    entry order is requested only when the signal is BUY or SELL and
    differs from [last_signal]; when the signal equals [last_signal] no
    order is requested and no position is opened.  A BUY or SELL that
    differs is answered by exactly one market order for [trade_amount]. *)
Theorem entry_only_on_a_changed_signal
  {sq : Sqrt} (self : config) (binance : exchange) (s : bot) (sg : signal) :
  position (after_manage self binance s) = None ->
  fetched_signal self binance (fetches s) = Some sg ->
  let s1 := after_manage self binance s in
  let s' := run_strategy self binance s in
  (sent s' <> sent s1 -> (sg = BUY \/ sg = SELL) /\ last_signal s <> Some sg)
  /\ (last_signal s = Some sg -> sent s' = sent s1 /\ position s' = None)
  /\ (forall sd, entry_side sg = Some sd -> last_signal s <> Some sg ->
        sent s' = sent s1 ++ [entry_request self sd]).
Proof.
  intros Hpos Hsig s1 s'.
  assert (Hrun := run_strategy_on_signal self binance s sg Hpos Hsig).
  fold s' s1 in Hrun.
  destruct (after_manage_keeps self binance s) as [Hlast _].
  fold s1 in Hlast, Hpos. cbv zeta in Hlast.
  set (price := fetched_price binance (fetches s)) in *.
  assert (Hquiet : last_signal s = Some sg \/ sg = HOLD ->
                   sent s' = sent s1 /\ position s' = None).
  { intros Hq.
    assert (Hq1 : last_signal s1 = Some sg \/ sg = HOLD)
      by (destruct Hq; [left; congruence | now right]).
    destruct (open_on_signal_quiet self binance sg price s1 Hq1)
      as (Hs & Hp & _).
    rewrite Hrun. cbn [log_cycle logger sent position].
    split; congruence. }
  split; [ | split].
  - intros Hsent.
    destruct sg.
    + split; [now left | ]. intros Hl. now apply Hsent, Hquiet; left.
    + split; [now right | ]. intros Hl. now apply Hsent, Hquiet; left.
    + exfalso. now apply Hsent, Hquiet; right.
  - intros Hl. apply Hquiet. now left.
  - intros sd Hside Hfresh.
    assert (Hd : last_signal s1 <> Some sg) by congruence.
    destruct (open_on_signal_fresh self binance sg sd price s1 Hside Hd)
      as (Hs & _).
    rewrite Hrun. cbn [log_cycle logger sent]. exact Hs.
Qed.

(** The falling series signals BUY; a bot that already recorded BUY and
    has no position asks nothing of the exchange. *)
Lemma entry_only_on_a_changed_signal_witness :
  let binance := fixed_exchange falling (Some (filled_order 90)) in
  let s := idle (Some BUY) in
  position (after_manage default_config binance s) = None
  /\ fetched_signal (sq := sqrt_floor) default_config binance (fetches s)
     = Some BUY
  /\ sent (run_strategy (sq := sqrt_floor) default_config binance s) = []
  /\ position (run_strategy (sq := sqrt_floor) default_config binance s)
     = None.
Proof.
  intros binance s.
  assert (Hpos : position (after_manage default_config binance s) = None)
    by reflexivity.
  assert (Hsig : fetched_signal (sq := sqrt_floor) default_config binance
                   (fetches s) = Some BUY)
    by exact falling_signals_BUY.
  split; [exact Hpos | split; [exact Hsig | ]].
  exact (proj1 (proj2 (entry_only_on_a_changed_signal (sq := sqrt_floor)
                         default_config binance s BUY Hpos Hsig))
           eq_refl).
Defined.

(** C10.  When a cycle opens a position, the entry price it records is
    the close of the last candle fetched in that cycle, whatever price the
    exchange's confirmation carries; the stop-loss and take-profit of every
    later cycle are therefore taken around that close. *)
Theorem entry_price_is_the_last_close
  {sq : Sqrt} (self : config) (binance : exchange) (s : bot)
  (sg : signal) (sd : side) (confirmation : Order.t) :
  position (after_manage self binance s) = None ->
  fetched_signal self binance (fetches s) = Some sg ->
  entry_side sg = Some sd ->
  last_signal s <> Some sg ->
  create_market_order binance (length (sent (after_manage self binance s)))
    sd (trade_amount self) = Some confirmation ->
  let close := fetched_price binance (fetches s) in
  let s' := run_strategy self binance s in
  position s'
  = Some {| Position.side_ := sd;
            Position.amount := trade_amount self;
            Position.entry_price := close;
            Position.timestamp := now binance (S (fetches s)) |}
  /\ forall (later : exchange) (price : float),
       position (manage_position self later price s') = None
       <-> match sd with
           | buy => (price <=? close * (Fin 1 - stop_loss_pct self))
                    || (price >=? close * (Fin 1 + take_profit_pct self))
           | sell => (price >=? close * (Fin 1 + stop_loss_pct self))
                     || (price <=? close * (Fin 1 - take_profit_pct self))
           end = true.
Proof.
  intros Hpos Hsig Hside Hfresh Hconfirmed close s'.
  assert (Hrun := run_strategy_on_signal self binance s sg Hpos Hsig).
  fold s' close in Hrun.
  destruct (after_manage_keeps self binance s) as [Hlast Hfetches].
  cbv zeta in Hlast, Hfetches.
  set (s1 := after_manage self binance s) in *.
  assert (Hd : last_signal s1 <> Some sg) by congruence.
  destruct (open_on_signal_fresh self binance sg sd close s1 Hside Hd)
    as (_ & _ & _ & Hopened).
  cbv zeta in Hopened. rewrite Hconfirmed, Hfetches in Hopened.
  assert (Hposition : position s' = position
            (open_on_signal self binance sg close s1))
    by (rewrite Hrun; reflexivity).
  rewrite Hopened in Hposition.
  split; [exact Hposition | ].
  intros later price.
  pose proof (manage_position_cases self later s' _ price Hposition) as Hc.
  cbv zeta in Hc. unfold stop_loss_hit, take_profit_hit in Hc.
  cbn [Position.side_ Position.entry_price] in Hc.
  destruct sd;
    repeat match type of Hc with
           | context [match ?c with true => _ | false => _ end] =>
               destruct c
           end;
    rewrite Hc; cbn [orb]; unfold set_position; cbn [position];
    try rewrite Hposition; split; intros; try reflexivity; discriminate.
Qed.

(** The falling series ends on 90 and signals BUY; the exchange confirms
    the order at 95; the position is entered at 90. *)
Lemma entry_price_is_the_last_close_witness :
  let binance := fixed_exchange falling (Some (filled_order 95)) in
  let s := idle None in
  position (after_manage default_config binance s) = None
  /\ fetched_signal (sq := sqrt_floor) default_config binance (fetches s)
     = Some BUY
  /\ position (run_strategy (sq := sqrt_floor) default_config binance s)
     = Some {| Position.side_ := buy; Position.amount := Fin (1 # 1000);
               Position.entry_price := Fin 90; Position.timestamp := 0 |}.
Proof.
  intros binance s.
  assert (Hpos : position (after_manage default_config binance s) = None)
    by reflexivity.
  assert (Hsig : fetched_signal (sq := sqrt_floor) default_config binance
                   (fetches s) = Some BUY)
    by exact falling_signals_BUY.
  split; [exact Hpos | split; [exact Hsig | ]].
  refine (proj1 (entry_price_is_the_last_close (sq := sqrt_floor)
                   default_config binance s BUY buy (filled_order 95)
                   Hpos Hsig eq_refl _ eq_refl)).
  discriminate.
Defined.

(** C9.  A BUY or SELL fires with no position open and the exchange
    rejects the entry order: [last_signal] is set to that signal all the
    same, so for as long as the following cycles produce the same signal
    nothing more is asked of the exchange and no position opens.  The entry
    is attempted again once the signal has changed (here to HOLD) and then
    fires anew. *)
Theorem failed_entry_is_not_retried
  {sq : Sqrt} (self : config) (binance : exchange) (s : bot)
  (sg : signal) (sd : side) (n : nat) :
  position s = None ->
  entry_side sg = Some sd ->
  last_signal s <> Some sg ->
  create_market_order binance (length (sent s)) sd (trade_amount self)
    = None ->
  (forall i, (i <= n)%nat ->
     fetched_signal self binance (fetches s + i) = Some sg) ->
  fetched_signal self binance (fetches s + n + 1) = Some HOLD ->
  fetched_signal self binance (fetches s + n + 2) = Some sg ->
  let attempt := entry_request self sd in
  (let s1 := run_strategy self binance s in
   position s1 = None /\ last_signal s1 = Some sg
   /\ sent s1 = sent s ++ [attempt])
  /\ (forall i, (i <= n)%nat ->
        let si := run self binance (S i) s in
        position si = None /\ last_signal si = Some sg
        /\ sent si = sent s ++ [attempt])
  /\ sent (run self binance (n + 3) s) = sent s ++ [attempt; attempt].
Proof.
  intros Hpos Hside Hfresh Hreject Hsame Hhold Hagain attempt.
  assert (Hfirst :
            let s1 := run_strategy self binance s in
            fetches s1 = S (fetches s)
            /\ position s1 = None /\ last_signal s1 = Some sg
            /\ sent s1 = sent s ++ [attempt]).
  { assert (Hsig : fetched_signal self binance (fetches s) = Some sg)
      by (rewrite <- (Nat.add_0_r (fetches s)); apply Hsame; lia).
    destruct (idle_cycle self binance s sg Hpos Hsig) as (Hf & _ & Hnew).
    destruct (Hnew sd Hside Hfresh) as (Hs & Hl & Hp).
    cbv zeta. repeat split; auto. }
  assert (Hrepeat : forall i, (i <= n)%nat ->
            let si := run self binance (S i) s in
            fetches si = (fetches s + S i)%nat
            /\ position si = None /\ last_signal si = Some sg
            /\ sent si = sent s ++ [attempt]).
  { induction i as [ | i IH]; intros Hi.
    - cbv zeta. change (run self binance 1 s)
        with (run_strategy self binance s).
      destruct Hfirst as (Hf & Hrest). split; [lia | exact Hrest].
    - destruct (IH ltac:(lia)) as (Hf & Hp & Hl & Hs).
      cbv zeta. rewrite run_snoc.
      set (si := run self binance (S i) s) in *.
      assert (Hsig : fetched_signal self binance (fetches si) = Some sg)
        by (rewrite Hf; apply Hsame; lia).
      destruct (idle_cycle self binance si sg Hp Hsig) as (Hf' & Hquiet & _).
      destruct (Hquiet (or_introl Hl)) as (Hp' & Hl' & Hs').
      repeat split; try assumption; [lia | congruence]. }
  split; [ | split].
  - destruct Hfirst as (_ & Hrest). exact Hrest.
  - intros i Hi. destruct (Hrepeat i Hi) as (_ & Hrest). exact Hrest.
  - destruct (Hrepeat n (le_n n)) as (Hf & Hp & Hl & Hs).
    replace (n + 3)%nat with (S (S (S n))) by lia.
    rewrite run_snoc, run_snoc.
    set (sn := run self binance (S n) s) in *.
    assert (Hsig : fetched_signal self binance (fetches sn) = Some HOLD)
      by (rewrite Hf; rewrite <- Hhold; f_equal; lia).
    destruct (idle_cycle self binance sn HOLD Hp Hsig) as (Hf' & Hquiet & _).
    destruct (Hquiet (or_intror eq_refl)) as (Hp' & Hl' & Hs').
    set (sh := run_strategy self binance sn) in *.
    assert (Hsig' : fetched_signal self binance (fetches sh) = Some sg)
      by (rewrite Hf', Hf; rewrite <- Hagain; f_equal; lia).
    destruct (idle_cycle self binance sh sg Hp' Hsig') as (_ & _ & Hnew).
    assert (Hchanged : last_signal sh <> Some sg)
      by (rewrite Hl'; destruct sg; discriminate).
    destruct (Hnew sd Hside Hchanged) as (Hs'' & _).
    rewrite Hs'', Hs', Hs, <- app_assoc. reflexivity.
Qed.

(** Against an exchange that rejects every order: BUY at the first two
    fetches, HOLD at the third, BUY again at the fourth. *)
Lemma failed_entry_is_not_retried_witness :
  let attempt := entry_request default_config buy in
  let s := idle None in
  let after (cycles : nat) :=
    run (sq := sqrt_floor) default_config rejecting_exchange cycles s in
  (position (after 1%nat) = None /\ last_signal (after 1%nat) = Some BUY
   /\ sent (after 1%nat) = sent s ++ [attempt])
  /\ (position (after 2%nat) = None /\ last_signal (after 2%nat) = Some BUY
      /\ sent (after 2%nat) = sent s ++ [attempt])
  /\ sent (after (1 + 3)%nat) = sent s ++ [attempt; attempt].
Proof.
  intros attempt s after.
  assert (Hsame : forall i, (i <= 1)%nat ->
            fetched_signal (sq := sqrt_floor) default_config
              rejecting_exchange (fetches s + i) = Some BUY).
  { intros [ | [ | i]] Hi; [exact falling_signals_BUY
                          | exact falling_signals_BUY | lia]. }
  pose proof (failed_entry_is_not_retried (sq := sqrt_floor) default_config
                rejecting_exchange s BUY buy 1
                eq_refl eq_refl ltac:(discriminate) eq_refl Hsame
                steady_signals_HOLD falling_signals_BUY) as H.
  cbv zeta in H.
  destruct H as (H1 & Hrepeat & Hs4).
  split; [exact H1 | split; [exact (Hrepeat 1%nat (le_n 1)) | exact Hs4]].
Defined.

(** ** No look-ahead *)

Section Causality.

Lemma causal_map (g : float -> float) : causal (map g).
Proof. intros n xs. symmetry. apply firstn_map. Qed.

Lemma causal_compose (f g : list float -> list float) :
  causal f -> causal g -> causal (fun xs => g (f xs)).
Proof. intros Hf Hg n xs. now rewrite Hf, Hg. Qed.

Lemma map2_firstn (h : float -> float -> float) (n : nat) :
  forall xs ys,
    Series.map2 h (firstn n xs) (firstn n ys) = firstn n (Series.map2 h xs ys).
Proof.
  induction n as [ | n IH]; intros [ | x xs] [ | y ys]; simpl;
    try reflexivity.
  now rewrite IH.
Qed.

Lemma causal_map2 (h : float -> float -> float)
  (f g : list float -> list float) :
  causal f -> causal g -> causal (fun xs => Series.map2 h (f xs) (g xs)).
Proof. intros Hf Hg n xs. now rewrite Hf, Hg, map2_firstn. Qed.

Lemma diff_from_firstn (n : nat) :
  forall prev xs,
    Series.diff_from prev (firstn n xs) = firstn n (Series.diff_from prev xs).
Proof.
  induction n as [ | n IH]; intros prev [ | x xs]; simpl; try reflexivity.
  now rewrite IH.
Qed.

Lemma causal_diff : causal Series.diff.
Proof. intros n xs. apply diff_from_firstn. Qed.

Lemma rolling_from_firstn (w : nat) (agg : list float -> float) (n : nat) :
  forall past xs,
    Series.rolling_from w agg past (firstn n xs)
    = firstn n (Series.rolling_from w agg past xs).
Proof.
  induction n as [ | n IH]; intros past [ | x xs]; try reflexivity.
  cbn [firstn Series.rolling_from]. now rewrite IH.
Qed.

Lemma causal_rolling (w : nat) (agg : list float -> float) :
  causal (Series.rolling w agg).
Proof.
  intros n xs. unfold Series.rolling.
  now rewrite <- firstn_map, rolling_from_firstn.
Qed.

Lemma ewm_from_firstn (alpha : float) (n : nat) :
  forall st xs,
    Series.ewm_from alpha st (firstn n xs)
    = firstn n (Series.ewm_from alpha st xs).
Proof.
  induction n as [ | n IH]; intros st [ | x xs]; try reflexivity.
  cbn [firstn Series.ewm_from]. now rewrite IH.
Qed.

Lemma causal_ewm_mean (span : float) : causal (Series.ewm_mean span).
Proof.
  intros [ | n] [ | x xs]; try reflexivity.
  cbn [firstn Series.ewm_mean]. now rewrite ewm_from_firstn.
Qed.

Context {sq : Sqrt}.
Variable self : config.

(** Each of the nine columns is a causal function of [close]. *)
Lemma indicator_columns_causal :
  causal (fun close => df_ma_short (indicator_columns self close))
  /\ causal (fun close => df_ma_long (indicator_columns self close))
  /\ causal (fun close => df_rsi (indicator_columns self close))
  /\ causal (fun close => df_macd (indicator_columns self close))
  /\ causal (fun close => df_macd_signal (indicator_columns self close))
  /\ causal (fun close => df_macd_histogram (indicator_columns self close))
  /\ causal (fun close => df_bb_middle (indicator_columns self close))
  /\ causal (fun close => df_bb_upper (indicator_columns self close))
  /\ causal (fun close => df_bb_lower (indicator_columns self close)).
Proof.
  assert (Hmean : forall w, causal (Series.rolling_mean w))
    by (intros w; apply causal_rolling).
  assert (Hstd : causal (Series.rolling_std 20)) by apply causal_rolling.
  assert (Hgain : causal (fun close => gain self (delta close))).
  { unfold gain, delta, Series.where_.
    apply (causal_compose (fun xs => map _ (Series.diff xs))); [ | apply Hmean].
    apply (causal_compose Series.diff);
      [apply causal_diff | apply causal_map]. }
  assert (Hloss : causal (fun close => loss self (delta close))).
  { unfold loss, delta, Series.where_.
    apply (causal_compose (fun xs => map _ (map _ (Series.diff xs))));
      [ | apply Hmean].
    apply (causal_compose (fun xs => map _ (Series.diff xs)));
      [ | apply causal_map].
    apply (causal_compose Series.diff);
      [apply causal_diff | apply causal_map]. }
  assert (Hmacd : causal (fun close => macd (exp1 close) (exp2 close)))
    by (apply causal_map2; apply causal_ewm_mean).
  assert (Hsignal :
            causal (fun close => macd_signal (macd (exp1 close) (exp2 close))))
    by (apply (causal_compose _ _ Hmacd), causal_ewm_mean).
  assert (Hwidth :
            causal (fun close => map (fun x => x * Fin 2) (bb_std close)))
    by (apply (causal_compose _ _ Hstd), causal_map).
  cbn [indicator_columns df_ma_short df_ma_long df_rsi df_macd df_macd_signal
         df_macd_histogram df_bb_middle df_bb_upper df_bb_lower].
  repeat split.
  - apply Hmean.
  - apply Hmean.
  - unfold rsi, rs.
    apply (causal_compose
             (fun close => Series.map2 Float.div (gain self (delta close))
                             (loss self (delta close))));
      [now apply causal_map2 | apply causal_map].
  - exact Hmacd.
  - exact Hsignal.
  - unfold macd_histogram. now apply causal_map2.
  - apply Hmean.
  - unfold bb_upper, bb_middle. apply causal_map2; [apply Hmean | exact Hwidth].
  - unfold bb_lower, bb_middle. apply causal_map2; [apply Hmean | exact Hwidth].
Qed.

Lemma frame_row_firstn (n i : nat) (b : Candle.t) (close : list float) :
  (i < n)%nat ->
  frame_row (indicator_columns self (firstn n close)) i b
  = frame_row (indicator_columns self close) i b.
Proof.
  intros Hi.
  destruct indicator_columns_causal
    as (H1 & H2 & H3 & H4 & H5 & H6 & H7 & H8 & H9).
  unfold frame_row.
  rewrite (H1 n close), (H2 n close), (H3 n close), (H4 n close),
    (H5 n close), (H6 n close), (H7 n close), (H8 n close), (H9 n close).
  rewrite !nth_firstn.
  destruct (Nat.ltb_spec i n); [reflexivity | lia].
Qed.

Lemma calculate_indicators_firstn (n : nat) (ohlcv : list Candle.t) :
  calculate_indicators self (firstn n ohlcv)
  = firstn n (calculate_indicators self ohlcv).
Proof.
  unfold calculate_indicators.
  rewrite firstn_map, combine_firstn, <- firstn_map.
  assert (Hseq : firstn n (seq 0 (length ohlcv))
                 = seq 0 (length (firstn n ohlcv))).
  { rewrite length_firstn. generalize 0%nat as start.
    revert n. induction ohlcv as [ | c cs IH]; intros [ | n] start;
      try reflexivity.
    simpl. now rewrite IH. }
  rewrite Hseq.
  apply map_ext_in. intros [i b] Hin. cbn [fst snd].
  apply frame_row_firstn.
  apply in_combine_l, in_seq in Hin.
  rewrite length_firstn in Hin. lia.
Qed.

End Causality.

(** C7.  The indicators look at no later candle: computed on a prefix
    of the candles they are the prefix of what the whole sequence gives,
    column for column (moving averages, RSI, MACD line, signal and
    histogram, Bollinger bands); hence line [i] of the frame is the same
    for any two sequences that agree up to candle [i]. *)
Theorem indicators_have_no_lookahead
  {sq : Sqrt} (self : config) (ohlcv : list Candle.t) :
  (forall n : nat,
     calculate_indicators self (firstn n ohlcv)
     = firstn n (calculate_indicators self ohlcv))
  /\ (forall (other : list Candle.t) (i : nat),
        firstn (S i) other = firstn (S i) ohlcv ->
        nth_error (calculate_indicators self other) i
        = nth_error (calculate_indicators self ohlcv) i).
Proof.
  split.
  - intros n. apply calculate_indicators_firstn.
  - intros other i Hagree.
    assert (Hrow : forall l,
              nth_error (calculate_indicators self l) i
              = nth_error (calculate_indicators self (firstn (S i) l)) i).
    { intros l. rewrite calculate_indicators_firstn, nth_error_firstn.
      destruct (Nat.ltb_spec i (S i)); [reflexivity | lia]. }
    now rewrite (Hrow other), (Hrow ohlcv), Hagree.
Qed.

(** Two sequences that part at their third candle share their second
    line. *)
Lemma indicators_have_no_lookahead_witness :
  let ohlcv := bars [1; 2; 3]%Q in
  let other := bars [1; 2; 5]%Q in
  firstn 2 other = firstn 2 ohlcv
  /\ nth_error
       (calculate_indicators (sq := sqrt_floor) default_config other) 1
     = nth_error
         (calculate_indicators (sq := sqrt_floor) default_config ohlcv) 1.
Proof.
  intros ohlcv other. split; [reflexivity | ].
  apply (proj2 (indicators_have_no_lookahead (sq := sqrt_floor)
                  default_config ohlcv) other 1%nat).
  reflexivity.
Defined.

(** ** The RSI *)

Section Rsi.

Local Open Scope Q_scope.

Lemma nonneg_fin (q : Q) : 0 <= q -> nonneg (Fin q).
Proof. intros H. right. now exists q. Qed.

Lemma nonneg_add (x y : float) : nonneg x -> nonneg y -> nonneg (x + y)%float.
Proof.
  intros [-> | (a & -> & Ha)] [-> | (b & -> & Hb)];
    try (left; reflexivity).
  apply nonneg_fin. rewrite Qred_correct.
  rewrite <- (Qplus_0_r 0). now apply Qplus_le_compat.
Qed.

Lemma nonneg_sum (xs : list float) : Forall nonneg xs -> nonneg (Float.sum xs).
Proof.
  unfold Float.sum. intros Hxs.
  assert (Hacc : nonneg (Fin 0)) by (apply nonneg_fin, Qle_refl).
  revert Hacc. generalize (Fin 0) as acc.
  induction Hxs as [ | x xs Hx _ IH]; intros acc Hacc; simpl.
  - exact Hacc.
  - apply IH. now apply nonneg_add.
Qed.

Lemma of_nat_pos (n : nat) : 0 < inject_Z (Z.of_nat (S n)).
Proof.
  change 0 with (inject_Z 0). rewrite <- Zlt_Qlt. lia.
Qed.

Lemma nonneg_mean (win : list float) :
  Forall nonneg win -> nonneg (Series.mean win).
Proof.
  intros Hwin. unfold Series.mean.
  destruct win as [ | x win]; [left; reflexivity | ].
  destruct (nonneg_sum _ Hwin) as [-> | (a & -> & Ha)]; [left; reflexivity | ].
  cbn [length Float.of_nat Float.div].
  pose proof (of_nat_pos (length win)) as Hn.
  rewrite (proj1 (Qgt_alt _ _) Hn).
  apply nonneg_fin. rewrite Qred_correct.
  apply Qle_shift_div_l; [exact Hn | ]. now rewrite Qmult_0_l.
Qed.

Lemma Forall_prefix (P : float -> Prop) (n : nat) (xs : list float) :
  Forall P xs -> Forall P (firstn n xs).
Proof.
  intros Hxs. revert n.
  induction Hxs as [ | x xs Hx _ IH]; intros [ | n]; simpl;
    constructor; auto.
Qed.

Lemma rolling_from_Forall (P R : float -> Prop) (w : nat)
  (agg : list float -> float) :
  R NaN ->
  (forall win, Forall P win -> R (agg win)) ->
  forall xs past,
    Forall P past -> Forall P xs ->
    Forall R (Series.rolling_from w agg past xs).
Proof.
  intros Hnan Hagg. induction xs as [ | x xs IH]; intros past Hpast Hxs.
  - constructor.
  - inversion Hxs as [ | ? ? Hx Hxs']; subst.
    assert (Hwin : Forall P (firstn w (x :: past)))
      by (apply Forall_prefix; now constructor).
    cbn [Series.rolling_from]. constructor.
    + destruct (length _ <? w)%nat; [exact Hnan | ].
      apply Hagg, Forall_rev, Hwin.
    + now apply IH.
Qed.

Lemma Forall_nth_default (R : float -> Prop) (xs : list float) (i : nat) :
  R NaN -> Forall R xs -> R (nth i xs NaN).
Proof.
  intros Hnan Hxs. revert i.
  induction Hxs as [ | x xs Hx _ IH]; intros [ | i]; simpl; auto.
Qed.

(** A rolling mean over entries that are missing, infinite or not
    negative has entries that are missing or not negative. *)
Lemma rolling_mean_nonneg (w : nat) (xs : list float) :
  Forall (fun x => x = PInf \/ nonneg x) xs ->
  Forall nonneg (Series.rolling_mean w xs).
Proof.
  intros Hxs. unfold Series.rolling_mean, Series.rolling.
  apply rolling_from_Forall with (P := nonneg).
  - now left.
  - apply nonneg_mean.
  - constructor.
  - apply Forall_map. revert Hxs. apply Forall_impl.
    intros x [-> | [-> | (q & -> & Hq)]];
      [left | left | apply nonneg_fin]; auto.
Qed.

Variable self : config.

Lemma gain_nonneg (delta : list float) : Forall nonneg (gain self delta).
Proof.
  unfold gain, Series.where_. apply rolling_mean_nonneg.
  apply Forall_map, Forall_forall. intros d _.
  unfold Float.gtb.
  destruct d as [ | | q | ]; simpl;
    try (right; apply nonneg_fin, Qle_refl); try (now left).
  destruct (Qcompare_spec q 0) as [H | H | H];
    right; apply nonneg_fin; try apply Qle_refl.
  now apply Qlt_le_weak.
Qed.

Lemma loss_nonneg (delta : list float) : Forall nonneg (loss self delta).
Proof.
  unfold loss, Series.where_. apply rolling_mean_nonneg.
  rewrite map_map. apply Forall_map, Forall_forall. intros d _.
  unfold Float.ltb.
  destruct d as [ | | q | ]; simpl;
    try (right; apply nonneg_fin; discriminate); try (now left).
  destruct (Qcompare_spec q 0) as [H | H | H]; simpl;
    right; apply nonneg_fin; try discriminate.
  apply Qlt_le_weak in H. apply Qopp_le_compat in H. exact H.
Qed.

Lemma nth_map2 (f : float -> float -> float) (xs ys : list float) (i : nat) :
  f NaN NaN = NaN ->
  length xs = length ys ->
  nth i (Series.map2 f xs ys) NaN = f (nth i xs NaN) (nth i ys NaN).
Proof.
  intros Hnan. revert ys i.
  induction xs as [ | x xs IH]; intros [ | y ys] [ | i] Hlen;
    try discriminate; simpl; try reflexivity; try (now rewrite Hnan).
  apply IH. now injection Hlen.
Qed.

Lemma rolling_from_length (w : nat) (agg : list float -> float)
  (xs : list float) :
  forall past, length (Series.rolling_from w agg past xs) = length xs.
Proof.
  induction xs as [ | x xs IH]; intros past; simpl; [reflexivity | ].
  now rewrite IH.
Qed.

Lemma gain_loss_length (delta : list float) :
  length (gain self delta) = length (loss self delta).
Proof.
  unfold gain, loss, Series.rolling_mean, Series.rolling, Series.where_.
  now rewrite !rolling_from_length, !length_map.
Qed.

(** The RSI at an index, from the two averages at that index. *)
Lemma rsi_at {sq : Sqrt} (close : list float) (i : nat) :
  nth i (df_rsi (indicator_columns self close)) NaN
  = rsi_of_rs (nth i (gain self (delta close)) NaN
                 / nth i (loss self (delta close)) NaN)%float.
Proof.
  cbn [indicator_columns df_rsi]. unfold rsi, rs.
  change NaN with (rsi_of_rs NaN) at 1. rewrite map_nth.
  now rewrite nth_map2 by (reflexivity || apply gain_loss_length).
Qed.

(** The formula on one pair of averages. *)
Lemma rsi_of_averages (g l : float) :
  nonneg g -> nonneg l ->
  let r := rsi_of_rs (g / l)%float in
  (r = NaN \/ in_rsi_range r)
  /\ (l =f= Fin 0 -> (exists q, g = Fin q /\ 0 < q) -> r = Fin 100)
  /\ (l =f= Fin 0 -> g =f= Fin 0 -> r = NaN).
Proof.
  intros [-> | (a & -> & Ha)] [-> | (b & -> & Hb)]; cbv zeta.
  - repeat split; try (now left); try contradiction.
  - repeat split; try (now left); try contradiction.
    intros _ (q & Hq & _). discriminate.
  - repeat split; try (now left); contradiction.
  - unfold Float.div.
    destruct (Qcompare_spec b 0) as [Hb0 | Hb0 | Hb0].
    + destruct (Qcompare_spec a 0) as [Ha0 | Ha0 | Ha0].
      * repeat split; try (now left).
        intros _ (q & Hq & Hpos). injection Hq as <-.
        rewrite Ha0 in Hpos. now apply Qlt_irrefl in Hpos.
      * exfalso. apply (Qlt_irrefl 0). now apply Qle_lt_trans with a.
      * assert (Hsat : rsi_of_rs PInf = Fin 100) by reflexivity.
        rewrite Hsat. repeat split; try reflexivity.
        -- right. exists 100. repeat split; discriminate.
        -- simpl. intros _ Ha0'. rewrite Ha0' in Ha0.
           now apply Qlt_irrefl in Ha0.
    + exfalso. apply (Qlt_irrefl 0). now apply Qle_lt_trans with b.
    + assert (Hrs : 0 <= Qred (a / b)).
      { rewrite Qred_correct. apply Qle_shift_div_l; [exact Hb0 | ].
        now rewrite Qmult_0_l. }
      set (q := Qred (a / b)) in *.
      unfold rsi_of_rs. cbn [Float.add].
      assert (Hd : 1 <= Qred (1 + q)).
      { rewrite Qred_correct. rewrite <- (Qplus_0_r 1) at 1.
        apply Qplus_le_compat; [apply Qle_refl | exact Hrs]. }
      set (d := Qred (1 + q)) in *.
      assert (Hdpos : 0 < d)
        by (apply Qlt_le_trans with 1; [reflexivity | exact Hd]).
      cbn [Float.div]. rewrite (proj1 (Qgt_alt _ _) Hdpos).
      assert (He : 0 <= Qred (100 / d) <= 100).
      { rewrite Qred_correct. split.
        - apply Qle_shift_div_l; [exact Hdpos | ]. rewrite Qmult_0_l.
          discriminate.
        - apply Qle_shift_div_r; [exact Hdpos | ].
          rewrite <- (Qmult_1_r 100) at 1.
          apply Qmult_le_l; [reflexivity | exact Hd]. }
      set (e := Qred (100 / d)) in *.
      cbn [Float.sub Float.neg Float.add].
      repeat split.
      * right. exists (Qred (100 + - e)). split; [reflexivity | ].
        rewrite Qred_correct. destruct He as [He0 He100]. split.
        -- rewrite <- (Qplus_opp_r e).
           apply Qplus_le_compat; [exact He100 | apply Qle_refl].
        -- rewrite <- (Qplus_0_r 100) at 2.
           apply Qplus_le_compat; [apply Qle_refl | ].
           apply Qopp_le_compat in He0. exact He0.
      * simpl. intros Hl. rewrite Hl in Hb0. now apply Qlt_irrefl in Hb0.
      * simpl. intros Hl. rewrite Hl in Hb0. now apply Qlt_irrefl in Hb0.
Qed.

End Rsi.

Lemma calculate_indicators_nth_error {sq : Sqrt} (self : config)
  (ohlcv : list Candle.t) (i : nat) (row : DfRow.t) :
  nth_error (calculate_indicators self ohlcv) i = Some row ->
  exists b,
    row = frame_row (indicator_columns self (map Candle.close ohlcv)) i b.
Proof.
  unfold calculate_indicators.
  generalize (indicator_columns self (map Candle.close ohlcv)) as c.
  intros c.
  change i with (0 + i)%nat at 2. generalize 0%nat as start.
  revert i. induction ohlcv as [ | b0 bs IH]; intros [ | i] start; simpl;
    try discriminate.
  - intros H. injection H as <-. exists b0. now rewrite Nat.add_0_r.
  - intros H. rewrite <- Nat.add_succ_comm. now apply IH.
Qed.

(** C3, as the code has it.  Every RSI value of the frame is either
    missing or lies between 0 and 100.  Where the average loss of the
    window is zero, the value is 100 when the average gain is positive
    and missing when the average gain is zero too. *)
Theorem rsi_is_missing_or_in_range
  {sq : Sqrt} (self : config) (ohlcv : list Candle.t) (i : nat)
  (row : DfRow.t) :
  nth_error (calculate_indicators self ohlcv) i = Some row ->
  let close := map Candle.close ohlcv in
  let avg_gain := nth i (gain self (delta close)) NaN in
  let avg_loss := nth i (loss self (delta close)) NaN in
  (DfRow.rsi row = NaN \/ in_rsi_range (DfRow.rsi row))
  /\ (avg_loss =f= Fin 0 -> (exists q, avg_gain = Fin q /\ 0 < q) ->
        DfRow.rsi row = Fin 100)
  /\ (avg_loss =f= Fin 0 -> avg_gain =f= Fin 0 -> DfRow.rsi row = NaN).
Proof.
  intros Hrow close avg_gain avg_loss.
  destruct (calculate_indicators_nth_error self ohlcv i row Hrow) as [b ->].
  cbn [frame_row DfRow.rsi]. fold close. rewrite (rsi_at self close i).
  apply rsi_of_averages.
  - apply Forall_nth_default; [now left | apply gain_nonneg].
  - apply Forall_nth_default; [now left | apply loss_nonneg].
Qed.

(** Fifteen rising candles: at the last one the average loss is zero,
    the average gain is not, and the RSI is 100. *)
Lemma rsi_is_missing_or_in_range_witness :
  exists row,
    nth_error (calculate_indicators (sq := sqrt_floor) default_config
                 (firstn 15 rising)) 14 = Some row
    /\ DfRow.rsi row = Fin 100.
Proof.
  eexists. split.
  - vm_compute. reflexivity.
  - refine (proj1 (proj2 (rsi_is_missing_or_in_range (sq := sqrt_floor)
                            default_config (firstn 15 rising) 14 _ _)) _ _).
    + vm_compute. reflexivity.
    + vm_compute. reflexivity.
    + vm_compute. eexists. split; reflexivity.
Defined.

(** C3, as stated, fails: on fifteen candles at a constant price the
    average loss of the last window is zero and the RSI is missing, not
    100. *)
Lemma constant_prices_leave_rsi_missing :
  ~ rsi_bounded_and_saturating (sq := sqrt_floor) default_config
      (repeat (Fin 100) 15).
Proof.
  intros [_ Hsaturates]. specialize (Hsaturates 14%nat).
  vm_compute in Hsaturates. now apply Hsaturates.
Qed.


(** ** The exponential moving averages *)

Section Ewm.

Local Open Scope Q_scope.

Lemma Qsum_cons (q : Q) (qs : list Q) : Qsum (q :: qs) = q + Qsum qs.
Proof. reflexivity. Qed.

Lemma Qsum_scale (c : Q) (f : nat -> Q) (ks : list nat) :
  Qsum (map (fun k => c * f k) ks) == c * Qsum (map f ks).
Proof.
  induction ks as [ | k ks IH]; simpl.
  - now rewrite Qmult_0_r.
  - rewrite IH. ring.
Qed.

Lemma Qsum_ext (f g : nat -> Q) (ks : list nat) :
  (forall k, f k == g k) -> Qsum (map f ks) == Qsum (map g ks).
Proof.
  intros Hfg. induction ks as [ | k ks IH]; simpl.
  - reflexivity.
  - now rewrite IH, Hfg.
Qed.

Lemma weights_total_0 (beta : Q) : weights_total beta 0 == 1.
Proof. unfold weights_total. simpl. ring. Qed.

Lemma weights_total_S (beta : Q) (t : nat) :
  weights_total beta (S t) == 1 + beta * weights_total beta t.
Proof.
  unfold weights_total.
  change (seq 0 (S (S t))) with (0%nat :: seq 1 (S t)).
  cbn [map]. rewrite Qsum_cons, <- seq_shift, map_map. cbn [Qpow].
  now rewrite (Qsum_scale beta (Qpow beta)).
Qed.

Lemma weighted_total_0 (beta : Q) (xs : list Q) :
  weighted_total beta xs 0 == nth 0 xs 0.
Proof. unfold weighted_total. simpl. ring. Qed.

Lemma weighted_total_S (beta : Q) (xs : list Q) (t : nat) :
  weighted_total beta xs (S t)
  == nth (S t) xs 0 + beta * weighted_total beta xs t.
Proof.
  unfold weighted_total.
  change (seq 0 (S (S t))) with (0%nat :: seq 1 (S t)).
  cbn [map]. rewrite Qsum_cons, <- seq_shift, map_map. cbn [Qpow Nat.sub].
  rewrite (Qsum_ext
             (fun k => beta * Qpow beta k * nth (t - k) xs 0)
             (fun k => beta * (Qpow beta k * nth (t - k) xs 0)))
    by (intros k; ring).
  rewrite (Qsum_scale beta (fun k => Qpow beta k * nth (t - k) xs 0)).
  ring.
Qed.

Lemma weights_total_pos (beta : Q) (t : nat) :
  0 <= beta -> 0 < weights_total beta t.
Proof.
  intros Hbeta. induction t as [ | t IH].
  - now rewrite weights_total_0.
  - rewrite weights_total_S.
    apply Qlt_le_trans with (1 + 0); [reflexivity | ].
    apply Qplus_le_compat; [apply Qle_refl | ].
    apply Qmult_le_0_compat; [exact Hbeta | now apply Qlt_le_weak].
Qed.


Lemma eqb_fin_refl (q : Q) : (Fin q ==? Fin q)%float = true.
Proof.
  unfold Float.eqb. simpl.
  now rewrite (proj1 (Qeq_alt q q) (Qeq_refl q)).
Qed.

Lemma neb_fin (w x : Q) :
  (Fin w !=? Fin x)%float = negb (Qeq_bool w x).
Proof.
  unfold Float.neb, Float.eqb. simpl. f_equal.
  destruct (Qcompare_spec w x) as [H | H | H].
  - symmetry. now apply Qeq_bool_iff.
  - symmetry. apply not_true_is_false. intros E.
    apply Qeq_bool_iff in E. rewrite E in H. now apply Qlt_irrefl in H.
  - symmetry. apply not_true_is_false. intros E.
    apply Qeq_bool_iff in E. rewrite E in H. now apply Qlt_irrefl in H.
Qed.

Variable alpha : Q.
Hypothesis alpha_le_1 : alpha <= 1.

Lemma beta_nonneg : 0 <= 1 - alpha.
Proof.
  unfold Qminus. rewrite <- (Qplus_opp_r alpha).
  apply Qplus_le_compat; [exact alpha_le_1 | apply Qle_refl].
Qed.

Lemma weighted_average_0 (xs : list Q) :
  weighted_average alpha xs 0 == nth 0 xs 0.
Proof.
  unfold weighted_average.
  rewrite weighted_total_0, weights_total_0. field.
Qed.

Lemma weighted_average_S (xs : list Q) (t : nat) :
  weighted_average alpha xs (S t)
  == (nth (S t) xs 0 + (1 - alpha) * weighted_total (1 - alpha) xs t)
     / (1 + (1 - alpha) * weights_total (1 - alpha) t).
Proof.
  unfold weighted_average.
  now rewrite weighted_total_S, weights_total_S.
Qed.

Lemma ewm_init_tracks (xs : list Q) :
  ewm_tracks alpha xs 0 (Series.ewm_init (Fin (nth 0 xs 0))).
Proof.
  exists (nth 0 xs 0), 1. unfold Series.ewm_init.
  rewrite eqb_fin_refl. cbn [Series.weighted Series.old_wt Series.nobs].
  repeat split; try reflexivity.
  now rewrite weighted_average_0.
Qed.

Lemma ewm_step_tracks (xs : list Q) (t : nat) (st : Series.ewm_state) :
  ewm_tracks alpha xs t st ->
  ewm_tracks alpha xs (S t)
    (Series.ewm_step (Fin alpha) st (Fin (nth (S t) xs 0))).
Proof.
  intros (w & o & Hw & Ho & Hwq & Hoq & Hn).
  set (x := nth (S t) xs 0).
  set (N := weighted_total (1 - alpha) xs t) in *.
  set (D := weights_total (1 - alpha) t) in *.
  assert (HD : 0 < D) by apply weights_total_pos, beta_nonneg.
  assert (Hden : 0 < 1 + (1 - alpha) * D).
  { apply Qlt_le_trans with (1 + 0); [reflexivity | ].
    apply Qplus_le_compat; [apply Qle_refl | ].
    apply Qmult_le_0_compat; [apply beta_nonneg | now apply Qlt_le_weak]. }
  assert (HD0 : ~ D == 0)
    by (intros E; rewrite E in HD; now apply Qlt_irrefl in HD).
  assert (Hden0 : ~ 1 + (1 - alpha) * D == 0)
    by (intros E; rewrite E in Hden; now apply Qlt_irrefl in Hden).
  unfold weighted_average in Hwq. fold N D in Hwq.
  unfold Series.ewm_step. rewrite Hw, Ho, !eqb_fin_refl, neb_fin.
  cbn [Float.sub Float.neg Float.add Float.mul].
  set (o' := Qred (o * Qred (1 + - alpha))).
  assert (Ho' : o' == (1 - alpha) * D).
  { unfold o'. rewrite !Qred_correct, Hoq. unfold Qminus. ring. }
  assert (Hsum : Qred (o' + 1) == 1 + (1 - alpha) * D).
  { rewrite Qred_correct, Ho'. ring. }
  assert (Hpos : 0 < Qred (o' + 1)) by now rewrite Hsum.
  destruct (Qeq_bool w x) eqn:Hwx; cbn [negb].
  - (* the value repeats the average: the average is kept *)
    apply Qeq_bool_iff in Hwx.
    exists w, (Qred (o' + 1)).
    cbn [Series.weighted Series.old_wt Series.nobs].
    repeat split; try reflexivity; try lia.
    + rewrite weighted_average_S. fold N D x. rewrite <- Hwx, Hwq. now field.
    + fold D. rewrite Hsum, weights_total_S. reflexivity.
  - exists (Qred (Qred (Qred (o' * w) + Qred (1 * x)) / Qred (o' + 1))),
      (Qred (o' + 1)).
    cbn [Series.weighted Series.old_wt Series.nobs Float.div].
    rewrite (proj1 (Qgt_alt _ _) Hpos).
    repeat split; try reflexivity; try lia.
    + rewrite weighted_average_S. fold N D x.
      rewrite !Qred_correct, Ho', Hwq. now field.
    + fold D. rewrite Hsum, weights_total_S. reflexivity.
Qed.

Lemma skipn_cons_nth (n : nat) (l : list Q) (x : Q) (r : list Q) :
  skipn n l = x :: r -> nth n l 0 = x /\ skipn (S n) l = r.
Proof.
  revert l. induction n as [ | n IH]; intros [ | y l] H; try discriminate.
  - injection H as -> ->. now split.
  - now apply IH.
Qed.

(** From a state that tracks index [t], the loop yields the weighted
    averages of the indices after [t]. *)
Lemma ewm_from_tracks (xs : list Q) :
  forall (rest : list Q) (t : nat) (st : Series.ewm_state),
    skipn (S t) xs = rest ->
    ewm_tracks alpha xs t st ->
    forall k, (k < length rest)%nat ->
      nth k (Series.ewm_from (Fin alpha) st (map Fin rest)) NaN
      =f= Fin (weighted_average alpha xs (S t + k)).
Proof.
  induction rest as [ | x rest IH]; intros t st Hskip Htracks k Hk;
    [simpl in Hk; lia | ].
  destruct (skipn_cons_nth _ _ _ _ Hskip) as [Hx Hrest].
  pose proof (ewm_step_tracks xs t st Htracks) as Hstep.
  rewrite Hx in Hstep.
  cbn [map Series.ewm_from].
  destruct k as [ | k].
  - destruct Hstep as (w & o & Hw & _ & Hwq & _ & Hn).
    cbn [nth]. unfold Series.ewm_out.
    destruct (Nat.leb_spec Series.ewm_minp
                (Series.nobs (Series.ewm_step (Fin alpha) st (Fin x))))
      as [_ | Hlt]; [ | unfold Series.ewm_minp in Hlt; lia].
    rewrite Hw, Nat.add_0_r. exact Hwq.
  - cbn [nth]. rewrite <- Nat.add_succ_comm.
    apply IH; [exact Hrest | exact Hstep | simpl in Hk; lia].
Qed.

End Ewm.

(** [ewm(span).mean()] on finite values is the weighted average with
    [alpha = 2 / (span + 1)]. *)
Lemma ewm_mean_weighted_average (span alpha : Q) (qs : list Q) (t : nat) :
  (alpha <= 1)%Q ->
  Series.ewm_alpha (Fin span) = Fin alpha ->
  (t < length qs)%nat ->
  nth t (Series.ewm_mean (Fin span) (map Fin qs)) NaN
  =f= Fin (weighted_average alpha qs t).
Proof.
  intros Halpha Hspan Ht.
  destruct qs as [ | x rest]; [simpl in Ht; lia | ].
  cbn [map Series.ewm_mean]. rewrite Hspan.
  pose proof (ewm_init_tracks alpha (x :: rest)) as Hinit. cbn [nth] in Hinit.
  destruct t as [ | k].
  - destruct Hinit as (w & _ & Hw & _ & Hwq & _ & Hn).
    cbn [nth]. unfold Series.ewm_out.
    destruct (Nat.leb_spec Series.ewm_minp
                (Series.nobs (Series.ewm_init (Fin x))))
      as [_ | Hlt]; [ | unfold Series.ewm_minp in Hlt; lia].
    rewrite Hw. exact Hwq.
  - cbn [nth].
    apply (ewm_from_tracks alpha Halpha (x :: rest) rest 0 _ eq_refl Hinit).
    simpl in Ht. lia.
Qed.

Lemma same_fin_inv (x : float) (q : Q) :
  x =f= Fin q -> exists a, x = Fin a /\ (a == q)%Q.
Proof. destruct x; simpl; try contradiction. intros H. now exists q0. Qed.

Lemma ewm_from_length (alpha : float) (xs : list float) :
  forall st, length (Series.ewm_from alpha st xs) = length xs.
Proof.
  induction xs as [ | x xs IH]; intros st; simpl; [reflexivity | ].
  now rewrite IH.
Qed.

Lemma ewm_mean_length (span : float) (xs : list float) :
  length (Series.ewm_mean span xs) = length xs.
Proof.
  destruct xs as [ | x xs]; simpl; [reflexivity | ].
  now rewrite ewm_from_length.
Qed.

Lemma map2_length (f : float -> float -> float) (xs ys : list float) :
  length xs = length ys -> length (Series.map2 f xs ys) = length xs.
Proof.
  revert ys. induction xs as [ | x xs IH]; intros [ | y ys] H;
    try discriminate; simpl; [reflexivity | ].
  rewrite IH; [reflexivity | now injection H].
Qed.

Lemma all_finite (l : list float) :
  (forall k, (k < length l)%nat -> exists q, nth k l NaN = Fin q) ->
  exists qs, l = map Fin qs.
Proof.
  induction l as [ | x l IH]; intros Hfin.
  - now exists [].
  - destruct (Hfin 0%nat) as [q Hq]; [simpl; lia | ].
    destruct IH as [qs Hqs].
    { intros k Hk. apply (Hfin (S k)). simpl. lia. }
    exists (q :: qs). simpl in Hq. now rewrite Hq, Hqs.
Qed.

(** C6, as the code has it.  The MACD line is the difference of the
    [ewm(span=12)] and [ewm(span=26)] means of [close] and the signal line
    is the [ewm(span=9)] mean of the MACD line, where each such mean is the
    average of all values so far under the weights [(1 - alpha)^k],
    [alpha = 2 / (span + 1)], the newest value weighing most. *)
Theorem macd_is_built_on_weighted_averages
  {sq : Sqrt} (self : config) (qs : list Q) (t : nat) :
  (t < length qs)%nat ->
  let close := map Fin qs in
  let c := indicator_columns self close in
  let fast := weighted_average (2 # 13) qs in
  let slow := weighted_average (2 # 27) qs in
  df_macd c
  = Series.map2 Float.sub (Series.ewm_mean (Fin 12) close)
      (Series.ewm_mean (Fin 26) close)
  /\ df_macd_signal c = Series.ewm_mean (Fin 9) (df_macd c)
  /\ nth t (Series.ewm_mean (Fin 12) close) NaN =f= Fin (fast t)
  /\ nth t (Series.ewm_mean (Fin 26) close) NaN =f= Fin (slow t)
  /\ nth t (df_macd c) NaN =f= Fin (fast t - slow t)
  /\ exists line : list Q,
       df_macd c = map Fin line
       /\ nth t (df_macd_signal c) NaN
          =f= Fin (weighted_average (1 # 5) line t).
Proof.
  intros Ht close c fast slow.
  assert (Hfast : forall k, (k < length qs)%nat ->
            nth k (Series.ewm_mean (Fin 12) close) NaN
            =f= Fin (weighted_average (2 # 13) qs k))
    by (intros k Hk; apply ewm_mean_weighted_average;
        [discriminate | reflexivity | exact Hk]).
  assert (Hslow : forall k, (k < length qs)%nat ->
            nth k (Series.ewm_mean (Fin 26) close) NaN
            =f= Fin (weighted_average (2 # 27) qs k))
    by (intros k Hk; apply ewm_mean_weighted_average;
        [discriminate | reflexivity | exact Hk]).
  assert (Hlen : length (Series.ewm_mean (Fin 12) close)
                 = length (Series.ewm_mean (Fin 26) close))
    by now rewrite !ewm_mean_length.
  assert (Hline : forall k, (k < length qs)%nat ->
            exists m, nth k (df_macd c) NaN = Fin m
                      /\ (m == weighted_average (2 # 13) qs k
                               - weighted_average (2 # 27) qs k)%Q).
  { intros k Hk. cbn [c indicator_columns df_macd]. unfold macd, exp1, exp2.
    rewrite nth_map2 by (reflexivity || exact Hlen).
    destruct (same_fin_inv _ _ (Hfast k Hk)) as (a & -> & Ha).
    destruct (same_fin_inv _ _ (Hslow k Hk)) as (b & -> & Hb).
    eexists. split; [reflexivity | ].
    rewrite Qred_correct, Ha, Hb. reflexivity. }
  assert (Hlinelen : length (df_macd c) = length qs).
  { cbn [c indicator_columns df_macd]. unfold macd, exp1, exp2.
    rewrite map2_length by exact Hlen.
    unfold close. now rewrite ewm_mean_length, length_map. }
  repeat split; try reflexivity.
  - now apply Hfast.
  - now apply Hslow.
  - destruct (Hline t Ht) as (m & -> & Hm). exact Hm.
  - destruct (all_finite (df_macd c)) as [line Hfinite].
    { intros k Hk. rewrite Hlinelen in Hk.
      destruct (Hline k Hk) as (m & Hm & _). now exists m. }
    exists line. split; [exact Hfinite | ].
    change (df_macd_signal c) with (Series.ewm_mean (Fin 9) (df_macd c)).
    rewrite Hfinite. apply ewm_mean_weighted_average;
      [discriminate | reflexivity | ].
    rewrite <- (length_map Fin), <- Hfinite, Hlinelen. exact Ht.
Qed.

(** On the closes 1, 2 the fast average is 1, 37/24 and the slow one
    1, 79/52. *)
Lemma macd_is_built_on_weighted_averages_witness :
  (1 < length [1; 2]%Q)%nat
  /\ nth 1 (df_macd (indicator_columns (sq := sqrt_floor) default_config
                       (map Fin [1; 2]%Q))) NaN
     =f= Fin (weighted_average (2 # 13) [1; 2]%Q 1
              - weighted_average (2 # 27) [1; 2]%Q 1)%Q.
Proof.
  split; [apply le_n | ].
  refine (proj1 (proj2 (proj2 (proj2 (proj2
            (macd_is_built_on_weighted_averages (sq := sqrt_floor)
               default_config [1; 2]%Q 1 _)))))).
  apply le_n.
Defined.

(** C6, as stated, fails: on the closes 1, 2 the MACD line ends on
    37/24 - 79/52 = 7/312, the difference of the recursively smoothed
    averages on 15/13 - 29/27 = 28/351. *)
Lemma macd_is_not_recursive_ema :
  ~ macd_is_recursive_ema [Fin 1; Fin 2].
Proof.
  intros [Hline _]. cbv zeta in Hline.
  assert (Hcode : macd (exp1 [Fin 1; Fin 2]) (exp2 [Fin 1; Fin 2])
                  = [Fin 0; Fin (7 # 312)])
    by (vm_compute; reflexivity).
  assert (Hspec : Series.map2 Float.sub
                    (ema_recursive 12 [Fin 1; Fin 2])
                    (ema_recursive 26 [Fin 1; Fin 2])
                  = [Fin 0; Fin (28 # 351)])
    by (vm_compute; reflexivity).
  rewrite Hcode, Hspec in Hline.
  inversion Hline as [ | ? ? ? ? _ Hrest]; subst.
  inversion Hrest as [ | ? ? ? ? Hsecond _]; subst.
  vm_compute in Hsecond. discriminate.
Qed.

(* ================================================================== *)
(** * Further properties of the strategy cycle *)
(* ================================================================== *)

Section Holding.

Context {sq : Sqrt}.
Variable self : config.
Variable binance : exchange.

(** The state in which the signal is consulted, for a cycle that starts
    with a position: kept when no threshold is hit, closed by one order
    otherwise. *)
Lemma after_manage_holding (s : bot) (pos : Position.t) :
  position s = Some pos ->
  let price := fetched_price binance (fetches s) in
  let s1 := after_manage self binance s in
  last_signal s1 = last_signal s
  /\ if stop_loss_hit self pos price || take_profit_hit self pos price
     then position s1 = None /\ sent s1 = sent s ++ [closing_request pos]
     else position s1 = Some pos /\ sent s1 = sent s.
Proof.
  intros Hpos price s1.
  destruct (after_manage_keeps self binance s) as [Hlast _].
  split; [exact Hlast | ].
  destruct (get_historical_data_keeps binance s) as (Hp & _ & Hs & _).
  cbv zeta in Hp, Hs.
  set (s0 := snd (get_historical_data binance s)) in *.
  assert (Hpos0 : position s0 = Some pos) by congruence.
  pose proof (manage_position_cases self binance s0 pos price Hpos0) as Hc.
  cbv zeta in Hc. fold price in Hc.
  change (manage_position self binance price s0) with s1 in Hc.
  assert (Hclosed : forall m,
            s1 = set_position None
                   (snd (place_order binance (req_side (closing_request pos))
                           (Position.amount pos) None (logger m s0))) ->
            position s1 = None /\ sent s1 = sent s ++ [closing_request pos]).
  { intros m ->. unfold set_position; cbn [position sent].
    split; [reflexivity | ].
    rewrite place_order_sent. cbn [logger sent]. now rewrite Hs. }
  destruct (stop_loss_hit self pos price), (take_profit_hit self pos price);
    cbn [orb]; try (now apply Hclosed in Hc).
  rewrite Hc. split; congruence.
Qed.

End Holding.

(** X1.  While a position is open and the last close hits neither its
    stop-loss nor its take-profit, a cycle sends no order, keeps the
    position and keeps [last_signal]: the signal is not consulted, so an
    opposite signal does not close the position. *)
Theorem open_position_waits_for_its_thresholds
  {sq : Sqrt} (self : config) (binance : exchange) (s : bot)
  (pos : Position.t) (c : Candle.t) (cs : list Candle.t) :
  position s = Some pos ->
  fetch_ohlcv binance (fetches s) = Some (c :: cs) ->
  let price := last (map Candle.close (c :: cs)) NaN in
  stop_loss_hit self pos price = false ->
  take_profit_hit self pos price = false ->
  let s' := run_strategy self binance s in
  position s' = Some pos /\ last_signal s' = last_signal s
  /\ sent s' = sent s.
Proof.
  intros Hpos Hfetch price Hstop Htake s'.
  assert (Hprice : fetched_price binance (fetches s) = price)
    by (unfold fetched_price; now rewrite Hfetch).
  destruct (after_manage_holding self binance s pos Hpos) as [Hlast Hkept].
  rewrite Hprice, Hstop, Htake in Hkept. destruct Hkept as [Hp Hs].
  unfold s'. rewrite (run_strategy_fetched self binance s c cs Hfetch).
  cbv zeta. rewrite Hp. cbn [log_cycle logger position last_signal sent].
  repeat split; assumption.
Qed.

(** A long position entered at 100 sits through a cycle that ends on
    103, between its stop-loss of 98 and its take-profit of 104. *)
Lemma open_position_waits_for_its_thresholds_witness :
  let quiet := bars (repeat 100%Q 24 ++ [103]%Q) in
  let binance := fixed_exchange quiet (Some (filled_order 103)) in
  let s' := run_strategy (sq := sqrt_floor) default_config binance
              (holding long_at_100) in
  position s' = Some long_at_100 /\ last_signal s' = Some BUY
  /\ sent s' = [].
Proof.
  intros quiet binance s'.
  exact (open_position_waits_for_its_thresholds (sq := sqrt_floor)
           default_config binance (holding long_at_100) long_at_100
           (flat_bar 100) (bars (repeat 100%Q 23 ++ [103]%Q))
           eq_refl eq_refl eq_refl eq_refl).
Defined.

(** X2.  A cycle that closes the position consults the signal at once;
    when the signal is the one recorded in [last_signal] (the one the
    position was opened on, if nothing changed it since) no entry follows:
    the closing order is the only order of the cycle and the bot is left
    without a position. *)
Theorem no_reentry_on_the_recorded_signal
  {sq : Sqrt} (self : config) (binance : exchange) (s : bot)
  (pos : Position.t) (sg : signal) :
  position s = Some pos ->
  fetched_signal self binance (fetches s) = Some sg ->
  let price := fetched_price binance (fetches s) in
  stop_loss_hit self pos price || take_profit_hit self pos price = true ->
  last_signal s = Some sg ->
  let s' := run_strategy self binance s in
  position s' = None /\ last_signal s' = Some sg
  /\ sent s' = sent s ++ [closing_request pos].
Proof.
  intros Hpos Hsig price Hhit Hlast s'.
  destruct (after_manage_holding self binance s pos Hpos) as [Hl Hclosed].
  fold price in Hclosed. rewrite Hhit in Hclosed.
  destruct Hclosed as [Hp1 Hs1].
  unfold s'. rewrite (run_strategy_on_signal self binance s sg Hp1 Hsig).
  fold price.
  set (s1 := after_manage self binance s) in *.
  assert (Hq : last_signal s1 = Some sg \/ sg = HOLD)
    by (left; congruence).
  destruct (open_on_signal_quiet self binance sg price s1 Hq)
    as (Hs & Hp & Hl' & _).
  cbn [log_cycle logger position last_signal sent].
  repeat split; congruence.
Qed.

(** A long position opened on BUY at 100 is stopped out by the falling
    series, which signals BUY again: one sell order, no new position. *)
Lemma no_reentry_on_the_recorded_signal_witness :
  let binance := fixed_exchange falling (Some (filled_order 90)) in
  let s' := run_strategy (sq := sqrt_floor) default_config binance
              (holding long_at_100) in
  position s' = None /\ last_signal s' = Some BUY
  /\ sent s' = [] ++ [closing_request long_at_100].
Proof.
  intros binance s'.
  exact (no_reentry_on_the_recorded_signal (sq := sqrt_floor)
           default_config binance (holding long_at_100) long_at_100 BUY
           eq_refl falling_signals_BUY eq_refl eq_refl).
Defined.

(** X3.  A cycle can close a position and open the opposite one: when
    the position is closed and the signal is a BUY or SELL other than
    [last_signal], the cycle sends the closing order and then the entry
    order, and a confirmed entry leaves a new position at the same last
    close. *)
Theorem exit_and_entry_in_one_cycle
  {sq : Sqrt} (self : config) (binance : exchange) (s : bot)
  (pos : Position.t) (sg : signal) (sd : side) (confirmation : Order.t) :
  position s = Some pos ->
  fetched_signal self binance (fetches s) = Some sg ->
  let price := fetched_price binance (fetches s) in
  stop_loss_hit self pos price || take_profit_hit self pos price = true ->
  entry_side sg = Some sd ->
  last_signal s <> Some sg ->
  create_market_order binance (S (length (sent s))) sd (trade_amount self)
    = Some confirmation ->
  let s' := run_strategy self binance s in
  sent s' = sent s ++ [closing_request pos; entry_request self sd]
  /\ last_signal s' = Some sg
  /\ position s'
     = Some {| Position.side_ := sd;
               Position.amount := trade_amount self;
               Position.entry_price := price;
               Position.timestamp := now binance (S (fetches s)) |}.
Proof.
  intros Hpos Hsig price Hhit Hside Hfresh Hconfirmed s'.
  destruct (after_manage_holding self binance s pos Hpos) as [Hl Hclosed].
  fold price in Hclosed. rewrite Hhit in Hclosed.
  destruct Hclosed as [Hp1 Hs1].
  destruct (after_manage_keeps self binance s) as [_ Hf1]. cbv zeta in Hf1.
  unfold s'. rewrite (run_strategy_on_signal self binance s sg Hp1 Hsig).
  fold price.
  set (s1 := after_manage self binance s) in *.
  assert (Hd : last_signal s1 <> Some sg) by congruence.
  destruct (open_on_signal_fresh self binance sg sd price s1 Hside Hd)
    as (Hs & Hl' & _ & Hp).
  cbv zeta in Hp.
  rewrite Hs1, length_app, Nat.add_comm in Hp. cbn [length Nat.add] in Hp.
  rewrite Hconfirmed, Hf1 in Hp.
  cbn [log_cycle logger position last_signal sent].
  repeat split; try assumption.
  rewrite Hs, Hs1, <- app_assoc. reflexivity.
Qed.

(** A short position opened on SELL at 85 meets the falling series,
    which ends on 90 and signals BUY: the stop-loss at 86.7 buys back,
    and the BUY opens a long position at 90 in the same cycle. *)
Lemma exit_and_entry_in_one_cycle_witness :
  let binance := fixed_exchange falling (Some (filled_order 90)) in
  let s' := run_strategy (sq := sqrt_floor) default_config binance
              short_since_SELL in
  sent s' = [] ++ [closing_request short_at_85;
                   entry_request default_config buy]
  /\ last_signal s' = Some BUY
  /\ position s'
     = Some {| Position.side_ := buy; Position.amount := Fin (1 # 1000);
               Position.entry_price := Fin 90; Position.timestamp := 0 |}.
Proof.
  intros binance s'.
  refine (exit_and_entry_in_one_cycle (sq := sqrt_floor)
            default_config binance short_since_SELL short_at_85 BUY
            buy (filled_order 90)
            eq_refl falling_signals_BUY eq_refl eq_refl _ eq_refl).
  discriminate.
Defined.

(** X4.  Cycles whose fetch raises or returns no candle change nothing:
    over any number of them the position, [last_signal] and the orders
    sent stay as they were.  In particular an open position is not
    checked against its stop-loss while the data is unavailable. *)
Theorem cycles_without_data_change_nothing
  {sq : Sqrt} (self : config) (binance : exchange) (n : nat) (s : bot) :
  (forall k, (fetches s <= k < fetches s + n)%nat ->
     fetch_ohlcv binance k = None \/ fetch_ohlcv binance k = Some []) ->
  let s' := run self binance n s in
  position s' = position s /\ last_signal s' = last_signal s
  /\ sent s' = sent s /\ fetches s' = (fetches s + n)%nat.
Proof.
  revert s. induction n as [ | n IH]; intros s Hdead.
  - cbn [run]. repeat split. lia.
  - cbn [run].
    destruct (run_strategy_no_data self binance s) as (Hp & Hl & Hs & Hf).
    { apply Hdead. lia. }
    cbv zeta in Hp, Hl, Hs, Hf.
    destruct (IH (run_strategy self binance s)) as (Hp' & Hl' & Hs' & Hf').
    { intros k Hk. apply Hdead. lia. }
    cbv zeta in Hp', Hl', Hs', Hf'.
    cbv zeta. repeat split; try congruence. lia.
Qed.

(** A long position entered at 100 through three cycles of an exchange
    whose fetches all raise. *)
Lemma cycles_without_data_change_nothing_witness :
  let s' := run (sq := sqrt_floor) default_config dead_exchange 3
              (holding long_at_100) in
  position s' = Some long_at_100 /\ last_signal s' = Some BUY
  /\ sent s' = [] /\ fetches s' = 3%nat.
Proof.
  intros s'.
  refine (cycles_without_data_change_nothing (sq := sqrt_floor)
            default_config dead_exchange 3 (holding long_at_100) _).
  intros k _. now left.
Defined.

Section Sizes.

Context {sq : Sqrt}.
Variable self : config.
Variable binance : exchange.

Lemma sized_logger (m : log_msg) (s : bot) :
  sized_by_config self s -> sized_by_config self (logger m s).
Proof. intros H. exact H. Qed.

Lemma sized_place_order (sd : side) (s : bot) :
  sized_by_config self s ->
  sized_by_config self
    (snd (place_order binance sd (trade_amount self) None s)).
Proof.
  intros [Hsent Hpos].
  destruct (place_order_keeps binance sd (trade_amount self) None s)
    as (Hp & _).
  cbv zeta in Hp. split.
  - rewrite place_order_sent. apply Forall_app. split; [exact Hsent | ].
    constructor; [now split | constructor].
  - now rewrite Hp.
Qed.

Lemma sized_manage_position (price : float) (s : bot) :
  sized_by_config self s ->
  sized_by_config self (manage_position self binance price s).
Proof.
  intros Hsized.
  destruct (position s) as [pos | ] eqn:Hpos;
    [ | now rewrite manage_position_none].
  assert (Hamount : Position.amount pos = trade_amount self)
    by (destruct Hsized as [_ H]; now rewrite Hpos in H).
  pose proof (manage_position_cases self binance s pos price Hpos) as Hc.
  cbv zeta in Hc. rewrite Hamount in Hc.
  assert (Hclosed : forall m,
            sized_by_config self
              (set_position None
                 (snd (place_order binance (req_side (closing_request pos))
                         (trade_amount self) None (logger m s))))).
  { intros m.
    destruct (sized_place_order (req_side (closing_request pos))
                (logger m s) (sized_logger m s Hsized)) as [Hsent _].
    split; [exact Hsent | exact I]. }
  destruct (stop_loss_hit self pos price), (take_profit_hit self pos price);
    rewrite Hc; auto.
Qed.

Lemma sized_open_on_signal (sg : signal) (price : float) (s : bot) :
  sized_by_config self s ->
  sized_by_config self (open_on_signal self binance sg price s).
Proof.
  intros Hsized. unfold open_on_signal.
  assert (Hentry : forall sd m g,
            sized_by_config self
              (let (order, s0) :=
                 place_order binance sd (trade_amount self) None
                   (logger m s) in
               set_last_signal g
                 match order with
                 | Some _ =>
                     set_position
                       (Some {| Position.side_ := sd;
                                Position.amount := trade_amount self;
                                Position.entry_price := price;
                                Position.timestamp :=
                                  now binance (fetches s) |}) s0
                 | None => s0
                 end)).
  { intros sd m g.
    pose proof (sized_place_order sd (logger m s) (sized_logger m s Hsized))
      as Hplaced.
    destruct (place_order binance sd (trade_amount self) None (logger m s))
      as [[order | ] s0]; cbn [snd] in Hplaced.
    - split; [exact (proj1 Hplaced) | reflexivity].
    - exact Hplaced. }
  destruct sg.
  - destruct (last_signal_differs s BUY);
      [exact (Hentry buy (BuySignal price) BUY) | exact Hsized].
  - destruct (last_signal_differs s SELL);
      [exact (Hentry sell (SellSignal price) SELL) | exact Hsized].
  - exact Hsized.
Qed.

Lemma sized_run_strategy (s : bot) :
  sized_by_config self s -> sized_by_config self (run_strategy self binance s).
Proof.
  intros Hsized. unfold run_strategy.
  assert (H0 : sized_by_config self (snd (get_historical_data binance s))).
  { unfold get_historical_data.
    destruct (fetch_ohlcv binance (fetches s)); exact Hsized. }
  destruct (get_historical_data binance s) as [[ | c cs] s0];
    cbn [snd] in H0; [exact H0 | ].
  set (df := calculate_indicators self (c :: cs)).
  set (price := last (map DfRow.close df) NaN).
  pose proof (sized_manage_position price s0 H0) as H1.
  destruct (position (manage_position self binance price s0));
    [exact H1 | ].
  destruct (generate_signals self df) as [sg | ]; [ | exact H1].
  exact (sized_open_on_signal sg price _ H1).
Qed.

End Sizes.

(** X5.  Started from the state [__init__] leaves, the bot only ever
    sends market orders for [trade_amount], and whatever position it
    holds has that size: the closing order of a position always matches
    what was bought or sold.  The same holds from any state that already
    has the property. *)
Theorem orders_are_market_orders_for_trade_amount
  {sq : Sqrt} (self : config) (binance : exchange) (n : nat) :
  sized_by_config self (run self binance n initial)
  /\ forall s : bot,
       sized_by_config self s -> sized_by_config self (run self binance n s).
Proof.
  assert (Hrun : forall s : bot,
            sized_by_config self s ->
            sized_by_config self (run self binance n s)).
  { induction n as [ | n IH]; intros s Hs; [exact Hs | ].
    cbn [run]. apply IH, sized_run_strategy, Hs. }
  split; [ | exact Hrun].
  apply Hrun. split; [constructor | exact I].
Qed.

(** A long position of the default size through one cycle of the rising
    series, which closes it and opens a short one. *)
Lemma orders_are_market_orders_for_trade_amount_witness :
  let binance := fixed_exchange rising (Some (filled_order 110)) in
  sized_by_config default_config (holding long_at_100)
  /\ sized_by_config default_config
       (run (sq := sqrt_floor) default_config binance 1
          (holding long_at_100)).
Proof.
  intros binance.
  assert (Hstart : sized_by_config default_config (holding long_at_100))
    by (split; [constructor | reflexivity]).
  split; [exact Hstart | ].
  exact (proj2 (orders_are_market_orders_for_trade_amount
                  (sq := sqrt_floor) default_config binance 1)
           (holding long_at_100) Hstart).
Defined.

Section History.

Context {sq : Sqrt}.
Variable self : config.
Variable binance : exchange.

(** [s'] extends the history of [s] by at most [k] orders. *)
Lemma manage_position_appends (price : float) (s : bot) :
  exists new,
    sent (manage_position self binance price s) = sent s ++ new
    /\ (length new <= 1)%nat.
Proof.
  destruct (position s) as [pos | ] eqn:Hpos.
  - pose proof (manage_position_cases self binance s pos price Hpos) as Hc.
    cbv zeta in Hc.
    destruct (stop_loss_hit self pos price),
      (take_profit_hit self pos price); rewrite Hc;
      try (exists []; rewrite app_nil_r; split; [reflexivity | simpl; lia]);
      eexists; unfold set_position; cbn [sent];
      rewrite place_order_sent; cbn [logger sent];
      (split; [reflexivity | simpl; lia]).
  - rewrite manage_position_none by exact Hpos.
    exists []. rewrite app_nil_r. split; [reflexivity | simpl; lia].
Qed.

Lemma open_on_signal_appends (sg : signal) (price : float) (s : bot) :
  exists new,
    sent (open_on_signal self binance sg price s) = sent s ++ new
    /\ (length new <= 1)%nat.
Proof.
  destruct (last_signal_differs s sg) eqn:Hd.
  - apply last_signal_differs_iff in Hd.
    destruct (entry_side sg) as [sd | ] eqn:Hside.
    + destruct (open_on_signal_fresh self binance sg sd price s Hside Hd)
        as (Hs & _).
      eexists. split; [exact Hs | simpl; lia].
    + destruct sg; try discriminate.
      exists []. rewrite app_nil_r. split; [reflexivity | simpl; lia].
  - assert (Hq : last_signal s = Some sg).
    { unfold last_signal_differs in Hd.
      destruct (last_signal s) as [g | ]; [ | discriminate].
      destruct g, sg; simpl in Hd; try discriminate; reflexivity. }
    destruct (open_on_signal_quiet self binance sg price s (or_introl Hq))
      as (Hs & _).
    exists []. rewrite app_nil_r. split; [exact Hs | simpl; lia].
Qed.

Lemma run_strategy_appends (s : bot) :
  exists new,
    sent (run_strategy self binance s) = sent s ++ new
    /\ (length new <= 2)%nat.
Proof.
  unfold run_strategy.
  destruct (get_historical_data_keeps binance s) as (_ & _ & Hs0 & _).
  cbv zeta in Hs0.
  destruct (get_historical_data binance s) as [[ | c cs] s0];
    cbn [snd] in Hs0.
  - exists []. rewrite app_nil_r. split; [exact Hs0 | simpl; lia].
  - set (df := calculate_indicators self (c :: cs)).
    set (price := last (map DfRow.close df) NaN).
    destruct (manage_position_appends price s0) as (new1 & Hs1 & Hn1).
    rewrite Hs0 in Hs1.
    set (s1 := manage_position self binance price s0) in *.
    destruct (position s1).
    + exists new1. cbn [log_cycle logger sent]. split; [exact Hs1 | lia].
    + destruct (generate_signals self df) as [sg | ].
      * destruct (open_on_signal_appends sg price s1) as (new2 & Hs2 & Hn2).
        exists (new1 ++ new2). cbn [log_cycle logger sent].
        rewrite Hs2, Hs1, app_assoc, length_app. split; [reflexivity | lia].
      * exists new1. cbn [logger sent]. split; [exact Hs1 | lia].
Qed.

End History.

(** X6.  A cycle sends at most two orders and never drops one sent
    before: after [n] cycles the orders sent are those sent before followed
    by at most [2 * n] new ones. *)
Theorem at_most_two_orders_a_cycle
  {sq : Sqrt} (self : config) (binance : exchange) (n : nat) (s : bot) :
  exists new,
    sent (run self binance n s) = sent s ++ new
    /\ (length new <= 2 * n)%nat.
Proof.
  revert s. induction n as [ | n IH]; intros s.
  - exists []. rewrite app_nil_r. split; [reflexivity | simpl; lia].
  - cbn [run].
    destruct (run_strategy_appends self binance s) as (new1 & Hs1 & Hn1).
    destruct (IH (run_strategy self binance s)) as (new2 & Hs2 & Hn2).
    exists (new1 ++ new2).
    rewrite Hs2, Hs1, app_assoc, length_app. split; [reflexivity | lia].
Qed.

(* ================================================================== *)
(** * Further properties of the voting rule *)
(* ================================================================== *)

Lemma ltb_nan_r (a : float) : (a <? NaN) = false.
Proof. now destruct a. Qed.

Lemma gtb_nan_r (a : float) : (a >? NaN) = false.
Proof. now destruct a. Qed.

Lemma leb_nan_r (a : float) : (a <=? NaN) = false.
Proof. now destruct a. Qed.

Lemma geb_nan_r (a : float) : (a >=? NaN) = false.
Proof. now destruct a. Qed.

Lemma crosses_nan (a b a' b' : float) :
  a = NaN \/ b = NaN \/ a' = NaN \/ b' = NaN ->
  crosses_above a b a' b' = false /\ crosses_below a b a' b' = false.
Proof.
  unfold crosses_above, crosses_below.
  intros [-> | [-> | [-> | ->]]]; cbn [Float.gtb Float.ltb Float.leb
    Float.geb Float.compare andb];
    rewrite ?ltb_nan_r, ?gtb_nan_r, ?leb_nan_r, ?geb_nan_r,
      ?andb_false_r; split; reflexivity.
Qed.

(** X7.  A missing indicator casts no vote: every comparison with a
    missing value is false, so the sub-signal that reads it abstains
    instead of taking it for zero.  A frame past its warm-up whose latest
    row lacks the RSI, the Bollinger bands and one moving average is
    therefore a HOLD whatever the MACD says. *)
Theorem missing_indicator_casts_no_vote
  (self : config) (front : list DfRow.t) (previous latest : DfRow.t) :
  (DfRow.rsi latest = NaN -> rsi_threshold self latest = abstain)
  /\ (DfRow.bb_lower latest = NaN -> DfRow.bb_upper latest = NaN ->
        bollinger_breakout latest = abstain)
  /\ (DfRow.ma_short latest = NaN \/ DfRow.ma_long latest = NaN
      \/ DfRow.ma_short previous = NaN \/ DfRow.ma_long previous = NaN ->
        ma_crossover latest previous = abstain)
  /\ (DfRow.macd latest = NaN \/ DfRow.macd_signal latest = NaN
      \/ DfRow.macd previous = NaN \/ DfRow.macd_signal previous = NaN ->
        macd_crossover latest previous = abstain)
  /\ ((Nat.max (ma_long self) (rsi_period self)
         <= length (front ++ [previous; latest]))%nat ->
      DfRow.rsi latest = NaN ->
      DfRow.bb_lower latest = NaN -> DfRow.bb_upper latest = NaN ->
      DfRow.ma_short latest = NaN \/ DfRow.ma_long latest = NaN
      \/ DfRow.ma_short previous = NaN \/ DfRow.ma_long previous = NaN ->
      generate_signals self (front ++ [previous; latest]) = Some HOLD).
Proof.
  assert (Hrsi : DfRow.rsi latest = NaN -> rsi_threshold self latest = abstain)
    by (unfold rsi_threshold; now intros ->).
  assert (Hbb : DfRow.bb_lower latest = NaN -> DfRow.bb_upper latest = NaN ->
                bollinger_breakout latest = abstain).
  { unfold bollinger_breakout. intros -> ->.
    now rewrite ltb_nan_r, gtb_nan_r. }
  assert (Hma : DfRow.ma_short latest = NaN \/ DfRow.ma_long latest = NaN
                \/ DfRow.ma_short previous = NaN
                \/ DfRow.ma_long previous = NaN ->
                ma_crossover latest previous = abstain).
  { intros H. unfold ma_crossover.
    destruct (crosses_nan _ _ _ _ H) as [-> ->]. reflexivity. }
  assert (Hmacd : DfRow.macd latest = NaN \/ DfRow.macd_signal latest = NaN
                  \/ DfRow.macd previous = NaN
                  \/ DfRow.macd_signal previous = NaN ->
                  macd_crossover latest previous = abstain).
  { intros H. unfold macd_crossover.
    destruct (crosses_nan _ _ _ _ H) as [-> ->]. reflexivity. }
  repeat split; try assumption.
  intros Hwarm H1 H2 H3 H4.
  rewrite (generate_signals_warm self front previous latest Hwarm).
  unfold buy_votes, sell_votes, sub_signals.
  rewrite (Hrsi H1), (Hbb H2 H3), (Hma H4).
  now destruct (macd_crossover latest previous).
Qed.

(** Twenty rows without indicators under the default parameters. *)
Lemma missing_indicator_casts_no_vote_witness :
  let df := repeat (bare_row 100) 18 ++ [bare_row 100; bare_row 90] in
  (Nat.max (ma_long default_config) (rsi_period default_config)
     <= length df)%nat
  /\ generate_signals default_config df = Some HOLD.
Proof.
  split.
  - vm_compute. apply le_n.
  - refine (proj2 (proj2 (proj2 (proj2
              (missing_indicator_casts_no_vote default_config
                 (repeat (bare_row 100) 18) (bare_row 100)
                 (bare_row 90))))) _ eq_refl eq_refl eq_refl
              (or_introl eq_refl)).
    vm_compute. apply le_n.
Defined.

Lemma ltb_below_gtb (a l u : float) :
  (a <? l) = true -> (l >? u) = false -> (a >? u) = false.
Proof.
  unfold Float.ltb, Float.gtb.
  destruct a as [ | | a | ], l as [ | | l | ], u as [ | | u | ];
    cbn [Float.compare]; try discriminate; try reflexivity.
  destruct (Qcompare_spec a l) as [ | Hal | ]; try discriminate.
  destruct (Qcompare_spec l u) as [Hlu | Hlu | Hlu]; try discriminate;
    intros _ _.
  - rewrite <- Hlu. now rewrite (proj1 (Qlt_alt a l) Hal).
  - now rewrite (proj1 (Qlt_alt a u) (Qlt_trans _ _ _ Hal Hlu)).
Qed.

Lemma crosses_are_exclusive (a b a' b' : float) :
  crosses_above a b a' b' = true -> crosses_below a b a' b' = false.
Proof.
  unfold crosses_above, crosses_below, Float.gtb, Float.ltb.
  destruct (Float.compare a b) as [[ | | ] | ]; simpl; congruence.
Qed.

(** When no sub-signal can pass both of its tests, the counters are
    the numbers of tests that hold. *)
Lemma count_votes_of_tests
  (self : config) (latest previous : DfRow.t) :
  (rsi_oversold self >? rsi_overbought self) = false ->
  (DfRow.bb_lower latest >? DfRow.bb_upper latest) = false ->
  count_votes self latest previous
  = (count_true (buy_tests self latest previous),
     count_true (sell_tests self latest previous)).
Proof.
  intros Hrsi Hbb.
  rewrite count_votes_spec.
  unfold buy_votes, sell_votes, sub_signals, ma_crossover, rsi_threshold,
    macd_crossover, bollinger_breakout, buy_tests, sell_tests, count_true,
    cast.
  pose proof (crosses_are_exclusive
                (DfRow.ma_short latest) (DfRow.ma_long latest)
                (DfRow.ma_short previous) (DfRow.ma_long previous)) as Hma.
  pose proof (crosses_are_exclusive
                (DfRow.macd latest) (DfRow.macd_signal latest)
                (DfRow.macd previous) (DfRow.macd_signal previous)) as Hmacd.
  pose proof (fun H => ltb_below_gtb (DfRow.rsi latest) _ _ H Hrsi) as Hr.
  pose proof (fun H => ltb_below_gtb (DfRow.close latest) _ _ H Hbb) as Hb.
  destruct (crosses_above (DfRow.ma_short latest) _ _ _);
    [rewrite (Hma eq_refl) | ];
    (destruct (crosses_above (DfRow.macd latest) _ _ _);
     [rewrite (Hmacd eq_refl) | ]);
    (destruct (DfRow.rsi latest <? rsi_oversold self);
     [rewrite (Hr eq_refl) | ]);
    (destruct (DfRow.close latest <? DfRow.bb_lower latest);
     [rewrite (Hb eq_refl) | ]);
    repeat match goal with
           | |- context [if ?c then _ else _] => destruct c
           end; reflexivity.
Qed.

(* ================================================================== *)
(** * Further properties of the indicators *)
(* ================================================================== *)

(** X9.  [calculate_indicators] adds columns and nothing else: the frame
    has one row per candle, in the order of the candles, each row
    carrying its candle unchanged. *)
Theorem calculate_indicators_keeps_the_candles
  {sq : Sqrt} (self : config) (ohlcv : list Candle.t) :
  map DfRow.bar (calculate_indicators self ohlcv) = ohlcv
  /\ length (calculate_indicators self ohlcv) = length ohlcv.
Proof.
  split; [ | apply calculate_indicators_length].
  unfold calculate_indicators. rewrite map_map.
  rewrite (map_snd_combine_seq _ _
             (fun i b => DfRow.bar
                           (frame_row
                              (indicator_columns self (map Candle.close ohlcv))
                              i b))
             (fun b => b) ohlcv (fun _ _ => eq_refl) 0).
  apply map_id.
Qed.

Section RollingWindows.

Local Open Scope Q_scope.

Lemma firstn_cons_firstn (w : nat) (x : float) (l : list float) :
  firstn w (x :: firstn w l) = firstn w (x :: l).
Proof.
  destruct w as [ | w]; [reflexivity | ].
  rewrite !firstn_cons. f_equal. rewrite firstn_firstn. f_equal. lia.
Qed.

(** Entry [i] of a rolling aggregate: the aggregate of the last [w] of
    the values up to [i], once there are [w] of them. *)
Lemma rolling_from_nth (w : nat) (agg : list float -> float) :
  forall (xs done : list float) (i : nat),
    (i < length xs)%nat ->
    nth i (Series.rolling_from w agg (firstn w (rev done)) xs) NaN
    = let win := firstn w (rev (done ++ firstn (S i) xs)) in
      if (length win <? w)%nat then NaN else agg (rev win).
Proof.
  induction xs as [ | x rest IH]; intros done i Hi; [simpl in Hi; lia | ].
  cbn [Series.rolling_from].
  rewrite firstn_cons_firstn.
  assert (Hwin : firstn w (x :: rev done) = firstn w (rev (done ++ [x])))
    by (now rewrite rev_app_distr).
  destruct i as [ | i].
  - cbn [nth firstn]. now rewrite Hwin.
  - cbn [nth]. rewrite Hwin, IH by (simpl in Hi; lia).
    cbn [firstn]. now rewrite <- app_assoc.
Qed.

Lemma rolling_nth (w : nat) (agg : list float -> float) (xs : list float)
  (i : nat) :
  (i < length xs)%nat ->
  nth i (Series.rolling w agg xs) NaN
  = let win := skipn (S i - w) (firstn (S i) (map Series.prep_value xs)) in
    if (length win <? w)%nat then NaN else agg win.
Proof.
  intros Hi. unfold Series.rolling.
  pose proof (rolling_from_nth w agg (map Series.prep_value xs) [] i) as H.
  cbn [rev app] in H. rewrite firstn_nil in H.
  rewrite H by now rewrite length_map.
  cbv zeta. rewrite firstn_rev, length_rev, rev_involutive.
  rewrite length_firstn, length_map, Nat.min_l by lia.
  reflexivity.
Qed.

Lemma prep_value_fin (qs : list Q) :
  map Series.prep_value (map Fin qs) = map Fin qs.
Proof. rewrite map_map. now apply map_ext. Qed.

Lemma sum_from_fin (qs : list Q) :
  forall a : Q,
    exists b, fold_left Float.add (map Fin qs) (Fin a) = Fin b
              /\ b == a + Qsum qs.
Proof.
  induction qs as [ | q qs IH]; intros a; cbn [map fold_left].
  - exists a. split; [reflexivity | ]. simpl. ring.
  - destruct (IH (Qred (a + q))) as (b & Hb & Hbq).
    exists b. split; [exact Hb | ].
    rewrite Hbq, Qred_correct, Qsum_cons. ring.
Qed.

Lemma mean_fin (qs : list Q) :
  qs <> [] ->
  Series.mean (map Fin qs)
  =f= Fin (Qsum qs / inject_Z (Z.of_nat (length qs))).
Proof.
  intros Hne. unfold Series.mean, Float.sum.
  destruct (sum_from_fin qs 0) as (b & -> & Hb).
  rewrite length_map. destruct qs as [ | q qs]; [contradiction | ].
  cbn [length Float.of_nat Float.div].
  pose proof (of_nat_pos (length qs)) as Hn.
  rewrite (proj1 (Qgt_alt _ _) Hn). cbn [Float.same].
  rewrite Qred_correct, Hb, Qplus_0_l. reflexivity.
Qed.

(** A rolling mean over finite values. *)
Lemma rolling_mean_fin (w : nat) (qs : list Q) (i : nat) :
  (i < length qs)%nat ->
  rolling_mean_at w qs i (nth i (Series.rolling_mean w (map Fin qs)) NaN).
Proof.
  intros Hi. unfold rolling_mean_at, Series.rolling_mean.
  rewrite rolling_nth by now rewrite length_map.
  cbv zeta. rewrite prep_value_fin, firstn_map, skipn_map.
  rewrite length_map, length_skipn, length_firstn, Nat.min_l by lia.
  destruct (Nat.ltb_spec (S i) w) as [Hcold | Hwarm]; cbn [orb].
  - destruct (Nat.ltb_spec (S i - (S i - w)) w); [reflexivity | lia].
  - destruct (Nat.ltb_spec (S i - (S i - w)) w); [lia | ].
    destruct (Nat.eqb_spec w 0) as [-> | Hw].
    + rewrite Nat.sub_0_r, skipn_all2
        by (rewrite length_firstn; lia).
      reflexivity.
    + unfold sma.
      set (win := skipn (S i - w) (firstn (S i) qs)).
      assert (Hlen : length win = w)
        by (unfold win; rewrite length_skipn, length_firstn; lia).
      assert (Hne : win <> [])
        by (intros E; rewrite E in Hlen; simpl in Hlen; lia).
      replace (Z.of_nat w) with (Z.of_nat (length win))
        by now rewrite Hlen.
      now apply mean_fin.
Qed.

End RollingWindows.

(** X10.  Over finite closes the short and long moving averages and the
    Bollinger middle band are simple moving averages: at row [i] each is
    missing while fewer than [window] candles are available, and is the
    mean of the last [window] closes from then on. *)
Theorem moving_averages_are_window_means
  {sq : Sqrt} (self : config) (ohlcv : list Candle.t) (qs : list Q)
  (i : nat) (row : DfRow.t) :
  map Candle.close ohlcv = map Fin qs ->
  nth_error (calculate_indicators self ohlcv) i = Some row ->
  rolling_mean_at (ma_short self) qs i (DfRow.ma_short row)
  /\ rolling_mean_at (ma_long self) qs i (DfRow.ma_long row)
  /\ rolling_mean_at 20 qs i (DfRow.bb_middle row).
Proof.
  intros Hclose Hrow.
  assert (Hi : (i < length qs)%nat).
  { rewrite <- (length_map Fin), <- Hclose, length_map.
    rewrite <- (calculate_indicators_length self ohlcv).
    apply nth_error_Some. now rewrite Hrow. }
  destruct (calculate_indicators_nth_error self ohlcv i row Hrow) as [b ->].
  cbn [frame_row indicator_columns DfRow.ma_short DfRow.ma_long
         DfRow.bb_middle df_ma_short df_ma_long df_bb_middle].
  unfold bb_middle. rewrite Hclose.
  repeat split; now apply rolling_mean_fin.
Qed.

(** A frame has a row for every candle. *)
Lemma built_frame_has_row
  {sq : Sqrt} (self : config) (ohlcv : list Candle.t) (i : nat) :
  (i < length ohlcv)%nat ->
  nth_error (calculate_indicators self ohlcv) i <> None.
Proof.
  intros Hi. apply nth_error_Some.
  now rewrite calculate_indicators_length.
Qed.

Lemma falling_has_a_10th_row :
  nth_error (calculate_indicators (sq := sqrt_floor) default_config
               (firstn 12 falling)) 9 <> None.
Proof. apply built_frame_has_row. vm_compute. lia. Qed.

(** The first twelve candles of the falling series under the default
    parameters: at the tenth row the short average is the mean of the ten
    closes so far and the long one is still missing. *)
Lemma moving_averages_are_window_means_witness :
  let qs := map (fun i => 100 - inject_Z (Z.of_nat i) / 10)%Q (seq 0 12) in
  exists row,
    nth_error (calculate_indicators (sq := sqrt_floor) default_config
                 (firstn 12 falling)) 9 = Some row
    /\ DfRow.ma_short row =f= Fin (sma 10 qs 9)
    /\ DfRow.ma_long row = NaN.
Proof.
  intros qs.
  destruct (nth_error (calculate_indicators (sq := sqrt_floor)
                         default_config (firstn 12 falling)) 9)
    as [row | ] eqn:Hrow.
  - exists row. split; [reflexivity | ].
    destruct (moving_averages_are_window_means (sq := sqrt_floor)
                default_config (firstn 12 falling) qs 9 row eq_refl Hrow)
      as (Hshort & Hlong & _).
    split; [exact Hshort | exact Hlong].
  - exfalso. exact (falling_has_a_10th_row Hrow).
Defined.

Section Bollinger.

Local Open Scope Q_scope.

Lemma fm_nan : finite_or_missing NaN.
Proof. now left. Qed.

Lemma fm_fin (q : Q) : finite_or_missing (Fin q).
Proof. right. now exists q. Qed.

Lemma fm_add (x y : float) :
  finite_or_missing x -> finite_or_missing y -> finite_or_missing (x + y)%float.
Proof.
  intros [-> | [a ->]] [-> | [b ->]]; try apply fm_nan. apply fm_fin.
Qed.

Lemma fm_sub (x y : float) :
  finite_or_missing x -> finite_or_missing y -> finite_or_missing (x - y)%float.
Proof.
  intros [-> | [a ->]] [-> | [b ->]]; try apply fm_nan. apply fm_fin.
Qed.

Lemma fm_mul (x y : float) :
  finite_or_missing x -> finite_or_missing y -> finite_or_missing (x * y)%float.
Proof.
  intros [-> | [a ->]] [-> | [b ->]]; try apply fm_nan. apply fm_fin.
Qed.

Lemma fm_sum (xs : list float) :
  Forall finite_or_missing xs -> finite_or_missing (Float.sum xs).
Proof.
  unfold Float.sum. intros Hxs.
  assert (Hacc : finite_or_missing (Fin 0)) by apply fm_fin.
  revert Hacc. generalize (Fin 0) as acc.
  induction Hxs as [ | x xs Hx _ IH]; intros acc Hacc; simpl.
  - exact Hacc.
  - apply IH. now apply fm_add.
Qed.

Lemma fm_div_count (x : float) (n : nat) :
  finite_or_missing x -> finite_or_missing (x / Float.of_nat (S n))%float.
Proof.
  intros [-> | [a ->]]; [apply fm_nan | ].
  cbn [Float.of_nat Float.div].
  rewrite (proj1 (Qgt_alt _ _) (of_nat_pos n)). apply fm_fin.
Qed.

Lemma fm_mean (win : list float) :
  Forall finite_or_missing win -> finite_or_missing (Series.mean win).
Proof.
  intros Hwin. unfold Series.mean.
  destruct win as [ | x win]; [left; reflexivity | ].
  cbn [length]. apply fm_div_count, fm_sum, Hwin.
Qed.

Lemma fm_var (win : list float) :
  Forall finite_or_missing win -> finite_or_missing (Series.var win).
Proof.
  intros Hwin. unfold Series.var.
  destruct win as [ | x [ | y win]]; try apply fm_nan.
  cbn [length Nat.leb Nat.sub].
  pose proof (fm_mean (x :: y :: win) Hwin) as Hm.
  apply fm_div_count, fm_sum, Forall_map.
  revert Hwin. apply Forall_impl. intros a Ha.
  apply fm_mul; apply fm_sub; assumption.
Qed.

Lemma fm_prep (xs : list float) :
  Forall finite_or_missing (map Series.prep_value xs).
Proof.
  apply Forall_map, Forall_forall. intros x _.
  destruct x; cbn; try apply fm_nan. apply fm_fin.
Qed.

Context {sq : Sqrt}.
Hypothesis sq_nonneg : sqrt_nonneg sq.

Lemma std_nonneg (win : list float) :
  Forall finite_or_missing win -> nonneg (Series.std win).
Proof.
  intros Hwin. unfold Series.std, Series.zsqrt.
  destruct (fm_var win Hwin) as [-> | [v ->]]; [now left | ].
  unfold Float.ltb, Float.sqrt. cbn [Float.compare].
  destruct (v ?= 0); apply nonneg_fin;
    try apply sq_nonneg; apply Qle_refl.
Qed.

Lemma rolling_mean_fm (w : nat) (xs : list float) :
  Forall finite_or_missing (Series.rolling_mean w xs).
Proof.
  unfold Series.rolling_mean, Series.rolling.
  apply rolling_from_Forall with (P := finite_or_missing).
  - apply fm_nan.
  - apply fm_mean.
  - constructor.
  - apply fm_prep.
Qed.

Lemma rolling_std_nonneg (w : nat) (xs : list float) :
  Forall nonneg (Series.rolling_std w xs).
Proof.
  unfold Series.rolling_std, Series.rolling.
  apply rolling_from_Forall with (P := finite_or_missing).
  - now left.
  - apply std_nonneg.
  - constructor.
  - apply fm_prep.
Qed.

Lemma nth_map_nan (f : float -> float) (xs : list float) (i : nat) :
  f NaN = NaN -> nth i (map f xs) NaN = f (nth i xs NaN).
Proof. intros Hf. rewrite <- Hf at 1. apply map_nth. Qed.

(** Upper and lower band at one index, from the middle band and the
    deviation at that index. *)
Lemma bands_at (close : list float) (i : nat) :
  nth i (bb_upper (bb_middle close) (bb_std close)) NaN
  = (nth i (bb_middle close) NaN + nth i (bb_std close) NaN * Fin 2)%float
  /\ nth i (bb_lower (bb_middle close) (bb_std close)) NaN
     = (nth i (bb_middle close) NaN - nth i (bb_std close) NaN * Fin 2)%float.
Proof.
  assert (Hlen : length (bb_middle close)
                 = length (map (fun x => (x * Fin 2)%float) (bb_std close))).
  { unfold bb_middle, bb_std, Series.rolling_mean, Series.rolling_std,
      Series.rolling.
    now rewrite length_map, !rolling_from_length. }
  unfold bb_upper, bb_lower.
  rewrite !nth_map2 by (reflexivity || exact Hlen).
  now rewrite !(nth_map_nan (fun x => (x * Fin 2)%float)) by reflexivity.
Qed.

Lemma bands_of (m s : float) :
  finite_or_missing m -> nonneg s ->
  let u := (m + s * Fin 2)%float in
  let l := (m - s * Fin 2)%float in
  (u = NaN /\ l = NaN)
  \/ exists l' m' u' : Q,
       l = Fin l' /\ m = Fin m' /\ u = Fin u'
       /\ l' <= m' <= u' /\ u' - m' == m' - l'.
Proof.
  intros [-> | [m' ->]] [-> | (s' & -> & Hs)]; cbv zeta;
    try (left; split; reflexivity).
  right.
  cbn [Float.mul Float.add Float.sub Float.neg].
  set (d := Qred (s' * 2)).
  assert (Hd : 0 <= d).
  { unfold d. rewrite Qred_correct.
    apply Qmult_le_0_compat; [exact Hs | discriminate]. }
  exists (Qred (m' + - d)), m', (Qred (m' + d)).
  repeat split; try reflexivity; rewrite ?Qred_correct.
  - rewrite <- (Qplus_0_r m') at 2.
    apply Qplus_le_compat; [apply Qle_refl | ].
    apply Qopp_le_compat in Hd. exact Hd.
  - rewrite <- (Qplus_0_r m') at 1.
    apply Qplus_le_compat; [apply Qle_refl | exact Hd].
  - ring.
Qed.

End Bollinger.

Lemma built_row_bands
  {sq : Sqrt} (self : config) (ohlcv : list Candle.t) (i : nat)
  (row : DfRow.t) :
  sqrt_nonneg sq ->
  nth_error (calculate_indicators self ohlcv) i = Some row ->
  bands_in_order row.
Proof.
  intros Hsq Hrow.
  destruct (calculate_indicators_nth_error self ohlcv i row Hrow) as [b ->].
  unfold bands_in_order.
  cbn [frame_row indicator_columns DfRow.bb_lower DfRow.bb_middle
         DfRow.bb_upper df_bb_lower df_bb_middle df_bb_upper].
  set (close := map Candle.close ohlcv).
  destruct (bands_at close i) as [-> ->].
  apply bands_of.
  - apply (Forall_nth_default finite_or_missing); [apply fm_nan | ].
    apply rolling_mean_fm.
  - apply (Forall_nth_default nonneg); [now left | ].
    now apply rolling_std_nonneg.
Qed.

(** X11.  With a square root that is never negative, the Bollinger bands
    of every row are in order: either the outer bands are both missing, or
    all three are defined with lower <= middle <= upper and the middle
    band half-way between the other two. *)
Theorem bollinger_bands_are_in_order
  {sq : Sqrt} (self : config) (ohlcv : list Candle.t) (i : nat)
  (row : DfRow.t) :
  sqrt_nonneg sq ->
  nth_error (calculate_indicators self ohlcv) i = Some row ->
  bands_in_order row.
Proof. apply built_row_bands. Qed.

Lemma sqrt_floor_nonneg : sqrt_nonneg sqrt_floor.
Proof.
  intros q. unfold sqrtQ, sqrt_floor. rewrite Qred_correct.
  unfold Qle. cbn [Qnum Qden]. rewrite Z.mul_1_r, Z.mul_0_l.
  apply Z.sqrt_nonneg.
Qed.

Lemma falling_has_a_21st_row :
  nth_error (calculate_indicators (sq := sqrt_floor) default_config
               (firstn 21 falling)) 20 <> None.
Proof. apply built_frame_has_row. vm_compute. lia. Qed.

(** The last row of the first 21 candles of the falling series, with the
    square root rounded down to a multiple of [2^-52]. *)
Lemma bollinger_bands_are_in_order_witness :
  exists row,
    nth_error (calculate_indicators (sq := sqrt_floor) default_config
                 (firstn 21 falling)) 20 = Some row
    /\ bands_in_order row.
Proof.
  destruct (nth_error (calculate_indicators (sq := sqrt_floor)
                         default_config (firstn 21 falling)) 20)
    as [row | ] eqn:Hrow.
  - exists row. split; [reflexivity | ].
    exact (bollinger_bands_are_in_order (sq := sqrt_floor) default_config
             (firstn 21 falling) 20 row sqrt_floor_nonneg Hrow).
  - exfalso. exact (falling_has_a_21st_row Hrow).
Defined.

Section FlatMarket.

Local Open Scope Q_scope.

Lemma flat_values_do_not_cross (p : Q) (a b : float) :
  flat_or_missing p a -> flat_or_missing p b ->
  (a >? b)%float = false /\ (a <? b)%float = false.
Proof.
  intros [-> | Ha] [-> | Hb]; try (split; reflexivity);
    try (rewrite gtb_nan_r, ltb_nan_r; split; reflexivity).
  destruct (same_fin_inv a p Ha) as (a' & -> & Ha').
  destruct (same_fin_inv b p Hb) as (b' & -> & Hb').
  unfold Float.gtb, Float.ltb. cbn [Float.compare].
  assert (E : a' == b') by now rewrite Ha', Hb'.
  now rewrite (proj1 (Qeq_alt a' b') E).
Qed.

Lemma flat_values_are_fin (p : Q) (xs : list float) :
  Forall (fun x => x =f= Fin p) xs ->
  exists qs, xs = map Fin qs /\ Forall (fun q => q == p) qs.
Proof.
  induction 1 as [ | x xs Hx _ (qs & -> & Hqs)].
  - exists []. now split.
  - destruct (same_fin_inv x p Hx) as (a & -> & Ha).
    exists (a :: qs). split; [reflexivity | now constructor].
Qed.

Lemma Qsum_flat (p : Q) (qs : list Q) :
  Forall (fun q => q == p) qs ->
  Qsum qs == inject_Z (Z.of_nat (length qs)) * p.
Proof.
  induction 1 as [ | q qs Hq _ IH].
  - simpl. ring.
  - cbv beta in Hq. cbn [length]. rewrite Qsum_cons, IH, Hq.
    rewrite Nat2Z.inj_succ, <- Z.add_1_l, inject_Z_plus. ring.
Qed.

Lemma mean_flat (p : Q) (win : list float) :
  Forall (fun x => x =f= Fin p) win -> flat_or_missing p (Series.mean win).
Proof.
  intros Hwin.
  destruct (flat_values_are_fin p win Hwin) as (qs & -> & Hqs).
  destruct qs as [ | q qs]; [now left | ].
  right.
  assert (Hne : q :: qs <> []) by discriminate.
  destruct (same_fin_inv _ _ (mean_fin (q :: qs) Hne)) as (m & -> & Hm).
  cbn [Float.same]. rewrite Hm, (Qsum_flat p (q :: qs) Hqs).
  field. cbn [length].
  pose proof (of_nat_pos (length qs)) as Hpos.
  intros E. rewrite E in Hpos. now apply Qlt_irrefl in Hpos.
Qed.

Lemma prep_flat (p : Q) (xs : list float) :
  Forall (fun x => x =f= Fin p) xs ->
  Forall (fun x => x =f= Fin p) (map Series.prep_value xs).
Proof.
  intros H. apply Forall_map. revert H. apply Forall_impl.
  intros x Hx. destruct (same_fin_inv x p Hx) as (a & -> & Ha). exact Ha.
Qed.

Lemma rolling_mean_flat (p : Q) (w : nat) (xs : list float) :
  Forall (fun x => x =f= Fin p) xs ->
  Forall (flat_or_missing p) (Series.rolling_mean w xs).
Proof.
  intros Hxs. unfold Series.rolling_mean, Series.rolling.
  apply rolling_from_Forall with (P := fun x => x =f= Fin p).
  - now left.
  - apply mean_flat.
  - constructor.
  - now apply prep_flat.
Qed.

(** The deltas of a flat series are missing or zero. *)
Lemma diff_from_flat (p : Q) (xs : list float) :
  Forall (fun x => x =f= Fin p) xs ->
  forall prev, flat_or_missing p prev ->
    Forall (flat_or_missing 0) (Series.diff_from prev xs).
Proof.
  induction 1 as [ | x xs Hx _ IH]; intros prev Hprev; cbn [Series.diff_from].
  - constructor.
  - destruct (same_fin_inv x p Hx) as (a & -> & Ha).
    constructor; [ | apply IH; now right].
    destruct Hprev as [-> | Hprev]; [now left | ].
    destruct (same_fin_inv prev p Hprev) as (b & -> & Hb).
    right. cbn [Float.sub Float.neg Float.add Float.same].
    rewrite Qred_correct, Ha, Hb. ring.
Qed.

Lemma where_flat (cond : float -> bool) (xs : list float) :
  (forall a, a == 0 -> cond (Fin a) = false) ->
  cond NaN = false ->
  Forall (flat_or_missing 0) xs ->
  Forall (fun x => x =f= Fin 0) (Series.where_ cond (Fin 0) xs).
Proof.
  intros Hzero Hnan Hxs. unfold Series.where_. apply Forall_map.
  revert Hxs. apply Forall_impl. intros x [-> | Hx].
  - now rewrite Hnan.
  - destruct (same_fin_inv x 0 Hx) as (a & -> & Ha).
    now rewrite (Hzero a Ha).
Qed.

Variable self : config.

Lemma gain_loss_flat (p : Q) (close : list float) :
  Forall (fun x => x =f= Fin p) close ->
  Forall (flat_or_missing 0) (gain self (delta close))
  /\ Forall (flat_or_missing 0) (loss self (delta close)).
Proof.
  intros Hclose.
  assert (Hdelta : Forall (flat_or_missing 0) (delta close))
    by (apply (diff_from_flat p); [exact Hclose | now left]).
  split.
  - unfold gain. apply rolling_mean_flat, where_flat; try assumption.
    + intros a Ha. unfold Float.gtb. cbn [Float.compare].
      now rewrite (proj1 (Qeq_alt a 0) Ha).
    + reflexivity.
  - unfold loss. apply rolling_mean_flat.
    assert (Hw : Forall (fun x => x =f= Fin 0)
                   (Series.where_ (fun d => (d <? Fin 0)%float) (Fin 0)
                      (delta close))).
    { apply where_flat; try assumption; [ | reflexivity].
      intros a Ha. unfold Float.ltb. cbn [Float.compare].
      now rewrite (proj1 (Qeq_alt a 0) Ha). }
    apply Forall_map. revert Hw. apply Forall_impl. intros x Hx.
    destruct (same_fin_inv x 0 Hx) as (a & -> & Ha).
    cbn [Float.neg Float.same]. rewrite Ha. reflexivity.
Qed.

Lemma rsi_of_flat_averages (g l : float) :
  flat_or_missing 0 g -> flat_or_missing 0 l -> rsi_of_rs (g / l)%float = NaN.
Proof.
  intros [-> | Hg] [-> | Hl]; try reflexivity.
  - now destruct g.
  - destruct (same_fin_inv g 0 Hg) as (a & -> & Ha).
    destruct (same_fin_inv l 0 Hl) as (b & -> & Hb).
    cbn [Float.div].
    now rewrite (proj1 (Qeq_alt b 0) Hb), (proj1 (Qeq_alt a 0) Ha).
Qed.

(** On a flat series the exponentially weighted mean repeats the
    values: the loop keeps its average whenever the next value equals
    it. *)
Lemma ewm_from_flat (p : Q) (alpha : float) (xs : list float) :
  Forall (fun x => x =f= Fin p) xs ->
  forall st,
    Series.weighted st =f= Fin p -> (1 <= Series.nobs st)%nat ->
    Forall (fun x => x =f= Fin p) (Series.ewm_from alpha st xs).
Proof.
  induction 1 as [ | x xs Hx _ IH]; intros st Hw Hn;
    cbn [Series.ewm_from]; [constructor | ].
  destruct (same_fin_inv x p Hx) as (b & -> & Hb).
  destruct (same_fin_inv _ p Hw) as (a & Ea & Ha).
  assert (Hstep : Series.weighted (Series.ewm_step alpha st (Fin b)) = Fin a
                  /\ (1 <= Series.nobs (Series.ewm_step alpha st (Fin b)))%nat).
  { unfold Series.ewm_step. rewrite Ea, !eqb_fin_refl, neb_fin.
    assert (E : a == b) by now rewrite Ha, Hb.
    rewrite (proj2 (Qeq_bool_iff a b) E).
    cbn [negb Series.weighted Series.nobs]. split; [reflexivity | lia]. }
  destruct Hstep as [Hw' Hn'].
  constructor.
  - unfold Series.ewm_out.
    destruct (Nat.leb_spec Series.ewm_minp
                (Series.nobs (Series.ewm_step alpha st (Fin b))))
      as [_ | Hlt]; [ | unfold Series.ewm_minp in Hlt; lia].
    now rewrite Hw'.
  - apply IH; [now rewrite Hw' | exact Hn'].
Qed.

Lemma ewm_mean_flat (p : Q) (span : float) (xs : list float) :
  Forall (fun x => x =f= Fin p) xs ->
  Forall (fun x => x =f= Fin p) (Series.ewm_mean span xs).
Proof.
  intros Hxs. destruct Hxs as [ | x xs Hx Hxs]; [constructor | ].
  cbn [Series.ewm_mean].
  destruct (same_fin_inv x p Hx) as (a & -> & Ha).
  assert (Hinit : Series.weighted (Series.ewm_init (Fin a)) = Fin a
                  /\ Series.nobs (Series.ewm_init (Fin a)) = 1%nat)
    by (unfold Series.ewm_init; rewrite eqb_fin_refl; now split).
  destruct Hinit as [Hw Hn].
  constructor.
  - unfold Series.ewm_out. rewrite Hn, Hw. exact Ha.
  - apply ewm_from_flat; [exact Hxs | now rewrite Hw | now rewrite Hn].
Qed.

Lemma macd_flat (p : Q) (close : list float) :
  Forall (fun x => x =f= Fin p) close ->
  Forall (fun x => x =f= Fin 0) (macd (exp1 close) (exp2 close)).
Proof.
  intros Hclose. unfold macd, exp1, exp2.
  pose proof (ewm_mean_flat p (Fin 12) close Hclose) as H1.
  pose proof (ewm_mean_flat p (Fin 26) close Hclose) as H2.
  revert H1 H2.
  generalize (Series.ewm_mean (Fin 12) close) as xs.
  generalize (Series.ewm_mean (Fin 26) close) as ys.
  intros ys xs H1. revert ys.
  induction H1 as [ | x xs Hx _ IH]; intros ys H2; [constructor | ].
  destruct H2 as [ | y ys Hy H2]; cbn [Series.map2]; constructor.
  - destruct (same_fin_inv x p Hx) as (a & -> & Ha).
    destruct (same_fin_inv y p Hy) as (b & -> & Hb).
    cbn [Float.sub Float.neg Float.add Float.same].
    rewrite Qred_correct, Ha, Hb. ring.
  - now apply IH.
Qed.

Lemma flat_is_flat_or_missing (p : Q) (xs : list float) :
  Forall (fun x => x =f= Fin p) xs -> Forall (flat_or_missing p) xs.
Proof. apply Forall_impl. intros x Hx. now right. Qed.

Context {sq : Sqrt}.
Hypothesis sq_nonneg : sqrt_nonneg sq.

(** Every row of the frame of a flat market is quiet. *)
Lemma flat_frame_row (p : Q) (ohlcv : list Candle.t) (i : nat)
  (b : Candle.t) :
  Forall (fun c => Candle.close c =f= Fin p) ohlcv ->
  Candle.close b =f= Fin p ->
  quiet_row p
    (frame_row (indicator_columns self (map Candle.close ohlcv)) i b).
Proof.
  intros Hflat Hb.
  set (close := map Candle.close ohlcv).
  assert (Hclose : Forall (fun x => x =f= Fin p) close)
    by (unfold close; now apply Forall_map).
  assert (Hat : forall q xs, Forall (flat_or_missing q) xs ->
                             flat_or_missing q (nth i xs NaN))
    by (intros q xs; apply Forall_nth_default; now left).
  unfold quiet_row.
  cbn [frame_row indicator_columns DfRow.close DfRow.bar DfRow.ma_short
         DfRow.ma_long DfRow.rsi DfRow.macd DfRow.macd_signal
         DfRow.bb_middle df_ma_short df_ma_long df_rsi df_macd
         df_macd_signal df_bb_middle].
  fold close.
  destruct (gain_loss_flat p close Hclose) as [Hgain Hloss].
  repeat split.
  - exact Hb.
  - apply Hat. now apply rolling_mean_flat.
  - apply Hat. now apply rolling_mean_flat.
  - pose proof (rsi_at self close i) as Hrsi.
    cbn [indicator_columns df_rsi] in Hrsi. rewrite Hrsi.
    apply rsi_of_flat_averages; apply Hat; assumption.
  - apply Hat, flat_is_flat_or_missing. now apply (macd_flat p).
  - apply Hat, flat_is_flat_or_missing. unfold macd_signal.
    apply ewm_mean_flat. now apply (macd_flat p).
  - apply Hat. unfold bb_middle. now apply rolling_mean_flat.
  - unfold bands_in_order.
    cbn [frame_row indicator_columns DfRow.bb_lower DfRow.bb_middle
           DfRow.bb_upper df_bb_lower df_bb_middle df_bb_upper].
    destruct (bands_at close i) as [-> ->].
    apply bands_of.
    + apply (Forall_nth_default finite_or_missing); [apply fm_nan | ].
      apply rolling_mean_fm.
    + apply (Forall_nth_default nonneg); [now left | ].
      now apply rolling_std_nonneg.
Qed.

(** Between two quiet rows no sub-signal votes. *)
Lemma quiet_rows_abstain (p : Q) (latest previous : DfRow.t) :
  quiet_row p latest -> quiet_row p previous ->
  sub_signals self latest previous = [abstain; abstain; abstain; abstain].
Proof.
  intros (Hc & Hs & Hl & Hr & Hm & Hg & Hmid & Hbands)
         (_ & Hs' & Hl' & _ & Hm' & Hg' & _ & _).
  unfold sub_signals, ma_crossover, rsi_threshold, macd_crossover,
    bollinger_breakout, crosses_above, crosses_below.
  destruct (flat_values_do_not_cross p _ _ Hs Hl) as [-> ->].
  destruct (flat_values_do_not_cross 0 _ _ Hm Hg) as [-> ->].
  rewrite Hr. cbn [andb cast Float.ltb Float.gtb Float.compare].
  repeat f_equal.
  destruct (same_fin_inv _ p Hc) as (c & -> & Hcp).
  destruct Hbands as [[-> ->] | (l & m & u & -> & Em & -> & [Hlm Hmu] & _)];
    [reflexivity | ].
  rewrite Em in Hmid. destruct Hmid as [Hmid | Hmid]; [discriminate | ].
  cbn [Float.same] in Hmid.
  unfold Float.ltb, Float.gtb. cbn [Float.compare].
  assert (Hlc : l <= c) by now rewrite Hcp, <- Hmid.
  assert (Hcu : c <= u) by now rewrite Hcp, <- Hmid.
  destruct (Qcompare_spec c l) as [ | Hlt | ];
    [ | exfalso; apply (Qlt_irrefl c); now apply Qlt_le_trans with l | ];
    (destruct (Qcompare_spec c u) as [ | | Hgt];
     [ | | exfalso; apply (Qlt_irrefl c); now apply Qle_lt_trans with u]);
    reflexivity.
Qed.

End FlatMarket.

Lemma ends_on_two_rows (rows : list DfRow.t) :
  (2 <= length rows)%nat ->
  exists front previous latest, rows = front ++ [previous; latest].
Proof.
  intros Hlen.
  destruct (exists_last (l := rows)) as (rows' & latest & ->).
  { intros ->. simpl in Hlen. lia. }
  rewrite length_app in Hlen. cbn [length] in Hlen.
  destruct (exists_last (l := rows')) as (front & previous & ->).
  { intros ->. simpl in Hlen. lia. }
  exists front, previous, latest. now rewrite <- app_assoc.
Qed.

(** X12.  A flat market never signals.  When every candle closes at the
    same price (and the square root is never negative), every row of the
    frame is quiet -- moving averages and middle band at that price or
    missing, RSI missing, MACD line and signal at zero, bands in order
    around the price -- no sub-signal votes, and [generate_signals]
    returns HOLD on any such frame of at least two candles. *)
Theorem flat_market_is_a_hold
  {sq : Sqrt} (self : config) (ohlcv : list Candle.t) (p : Q) :
  sqrt_nonneg sq ->
  Forall (fun c => Candle.close c =f= Fin p) ohlcv ->
  Forall (quiet_row p) (calculate_indicators self ohlcv)
  /\ ((2 <= length ohlcv)%nat ->
      generate_signals self (calculate_indicators self ohlcv) = Some HOLD).
Proof.
  intros Hsq Hflat.
  assert (Hrows : Forall (quiet_row p) (calculate_indicators self ohlcv)).
  { apply Forall_forall. intros row Hin.
    unfold calculate_indicators in Hin.
    apply in_map_iff in Hin. destruct Hin as ([i b] & <- & Hin).
    apply in_combine_r in Hin. cbn [fst snd].
    apply flat_frame_row; [exact Hsq | exact Hflat | ].
    now apply (proj1 (Forall_forall _ _) Hflat). }
  split; [exact Hrows | ].
  intros Hlen.
  set (df := calculate_indicators self ohlcv) in *.
  destruct (Nat.ltb_spec (length df)
              (Nat.max (ma_long self) (rsi_period self))) as [Hcold | Hwarm].
  - now apply generate_signals_cold.
  - destruct (ends_on_two_rows df) as (front & previous & latest & E).
    { unfold df. now rewrite calculate_indicators_length. }
    rewrite E in Hwarm, Hrows |- *.
    rewrite (generate_signals_warm self front previous latest Hwarm).
    apply Forall_app in Hrows. destruct Hrows as [_ Hlast].
    inversion Hlast as [ | ? ? Hprevious Hlast']; subst.
    inversion Hlast' as [ | ? ? Hlatest _]; subst.
    unfold buy_votes, sell_votes.
    now rewrite (quiet_rows_abstain self p latest previous Hlatest Hprevious).
Qed.

Lemma steady_is_flat :
  Forall (fun c => Candle.close c =f= Fin 100) steady.
Proof.
  unfold steady, bars. apply Forall_map, Forall_forall.
  intros q Hq. apply repeat_spec in Hq. subst q. reflexivity.
Qed.

(** Twenty-five candles at 100 under the default parameters. *)
Lemma flat_market_is_a_hold_witness :
  sqrt_nonneg sqrt_floor
  /\ Forall (fun c => Candle.close c =f= Fin 100) steady
  /\ generate_signals default_config
       (calculate_indicators (sq := sqrt_floor) default_config steady)
     = Some HOLD.
Proof.
  split; [exact sqrt_floor_nonneg | split; [exact steady_is_flat | ]].
  refine (proj2 (flat_market_is_a_hold (sq := sqrt_floor) default_config
                   steady 100 sqrt_floor_nonneg steady_is_flat) _).
  vm_compute. repeat constructor.
Defined.

(* ================================================================== *)
(** * When [generate_signals] raises *)
(* ================================================================== *)

(** X13.  [generate_signals] raises exactly on a frame that passes the
    warm-up test with fewer than two rows, where [df.iloc[-2]] (or
    [df.iloc[-1]]) does not exist.  That needs a warm-up of at most one
    candle: under the default parameters it returns a signal on every
    frame. *)
Theorem generate_signals_raises_only_below_two_rows
  (self : config) (df : list DfRow.t) :
  (generate_signals self df = None
   <-> (Nat.max (ma_long self) (rsi_period self) <= length df < 2)%nat)
  /\ generate_signals default_config df <> None.
Proof.
  assert (Hraise : forall cfg : config,
            generate_signals cfg df = None
            <-> (Nat.max (ma_long cfg) (rsi_period cfg) <= length df < 2)%nat).
  { intros cfg. unfold generate_signals.
    destruct (Nat.ltb_spec (length df)
                (Nat.max (ma_long cfg) (rsi_period cfg))) as [Hcold | Hwarm].
    - split; [discriminate | lia].
    - rewrite <- (length_rev df) in Hwarm |- *.
      destruct (rev df) as [ | latest [ | previous rest]];
        cbn [length] in Hwarm |- *;
        split; intros H; try reflexivity; try discriminate; try lia;
        exfalso; lia. }
  split; [apply Hraise | ].
  intros H. apply Hraise in H. cbn in H. lia.
Qed.

(* ================================================================== *)
(** * More on the RSI and the MACD *)
(* ================================================================== *)

Section RsiFormula.

Local Open Scope Q_scope.

Lemma rsi_of_finite_averages (g l : Q) :
  0 <= g -> 0 < l ->
  rsi_of_rs (Fin g / Fin l)%float =f= Fin (100 * g / (g + l)).
Proof.
  intros Hg Hl. unfold rsi_of_rs. cbn [Float.div].
  rewrite (proj1 (Qgt_alt _ _) Hl). cbn [Float.add].
  assert (Hrs : 0 <= Qred (g / l)).
  { rewrite Qred_correct. apply Qle_shift_div_l; [exact Hl | ].
    now rewrite Qmult_0_l. }
  assert (Hd : 0 < Qred (1 + Qred (g / l))).
  { rewrite Qred_correct. apply Qlt_le_trans with (1 + 0); [reflexivity | ].
    apply Qplus_le_compat; [apply Qle_refl | exact Hrs]. }
  cbn [Float.div]. rewrite (proj1 (Qgt_alt _ _) Hd).
  cbn [Float.sub Float.neg Float.add Float.same].
  rewrite !Qred_correct.
  assert (Hl0 : ~ l == 0)
    by (intros E; rewrite E in Hl; now apply Qlt_irrefl in Hl).
  assert (Hgl : ~ g + l == 0).
  { intros E. apply (Qlt_irrefl 0). rewrite <- E at 2.
    apply Qlt_le_trans with (0 + l); [now rewrite Qplus_0_l | ].
    apply Qplus_le_compat; [exact Hg | apply Qle_refl]. }
  field. split; assumption.
Qed.

End RsiFormula.

(** X14.  Where the average loss of the window is positive, the RSI is
    [100 * gain / (gain + loss)] of the two averages: 0 when the window
    holds no gain, 50 when gains and losses balance. *)
Theorem rsi_is_the_share_of_gains
  {sq : Sqrt} (self : config) (ohlcv : list Candle.t) (i : nat)
  (row : DfRow.t) (g l : Q) :
  nth_error (calculate_indicators self ohlcv) i = Some row ->
  let close := map Candle.close ohlcv in
  nth i (gain self (delta close)) NaN = Fin g ->
  nth i (loss self (delta close)) NaN = Fin l ->
  (0 < l)%Q ->
  DfRow.rsi row =f= Fin (100 * g / (g + l))%Q.
Proof.
  intros Hrow close Hgain Hloss Hl.
  destruct (calculate_indicators_nth_error self ohlcv i row Hrow) as [b ->].
  cbn [frame_row DfRow.rsi]. fold close.
  rewrite (rsi_at self close i), Hgain, Hloss.
  apply rsi_of_finite_averages; [ | exact Hl].
  pose proof (Forall_nth_default nonneg (gain self (delta close)) i
                (or_introl eq_refl) (gain_nonneg self (delta close))) as Hg.
  rewrite Hgain in Hg. destruct Hg as [Hg | (q & Hq & Hpos)];
    [discriminate | ].
  now injection Hq as ->.
Qed.

Lemma falling_has_a_15th_row :
  nth_error (calculate_indicators (sq := sqrt_floor) default_config
               (firstn 15 falling)) 14 <> None.
Proof. apply built_frame_has_row. vm_compute. lia. Qed.

(** Fifteen falling candles: no gain, an average loss of 1/10, and an
    RSI of 0. *)
Lemma rsi_is_the_share_of_gains_witness :
  exists row,
    nth_error (calculate_indicators (sq := sqrt_floor) default_config
                 (firstn 15 falling)) 14 = Some row
    /\ DfRow.rsi row =f= Fin (100 * 0 / (0 + (1 # 10)))%Q.
Proof.
  destruct (nth_error (calculate_indicators (sq := sqrt_floor)
                         default_config (firstn 15 falling)) 14)
    as [row | ] eqn:Hrow.
  - exists row. split; [reflexivity | ].
    refine (rsi_is_the_share_of_gains (sq := sqrt_floor) default_config
              (firstn 15 falling) 14 row 0 (1 # 10) Hrow _ _ _).
    + vm_compute. reflexivity.
    + vm_compute. reflexivity.
    + reflexivity.
  - exfalso. exact (falling_has_a_15th_row Hrow).
Defined.

(* ================================================================== *)
(** * The counters on frames built by [calculate_indicators] *)
(* ================================================================== *)

Lemma ordered_bands_do_not_overlap (row : DfRow.t) :
  bands_in_order row ->
  (DfRow.bb_lower row >? DfRow.bb_upper row) = false.
Proof.
  intros [[-> ->] | (l & m & u & -> & _ & -> & [Hlm Hmu] & _)];
    [reflexivity | ].
  unfold Float.gtb. cbn [Float.compare].
  destruct (Qcompare_spec l u) as [ | | Hgt]; try reflexivity.
  exfalso. apply (Qlt_irrefl u).
  apply Qlt_le_trans with l; [exact Hgt | ].
  now apply Qle_trans with m.
Qed.

(** X8.  When the oversold threshold is not above the overbought one
    and the latest lower band is not above the upper one, no sub-signal
    can pass its buy test and its sell test at once; the [elif] of each
    pair then hides nothing, and the two counters are simply the numbers
    of buy tests and of sell tests that hold.  The condition on the bands
    holds for every row [calculate_indicators] builds with a square root
    that is never negative. *)
Theorem votes_count_the_tests
  {sq : Sqrt} (self : config) (latest previous : DfRow.t) :
  (rsi_oversold self >? rsi_overbought self) = false ->
  ((DfRow.bb_lower latest >? DfRow.bb_upper latest) = false ->
   count_votes self latest previous
   = (count_true (buy_tests self latest previous),
      count_true (sell_tests self latest previous)))
  /\ (forall (ohlcv : list Candle.t) (i : nat),
        sqrt_nonneg sq ->
        nth_error (calculate_indicators self ohlcv) i = Some latest ->
        count_votes self latest previous
        = (count_true (buy_tests self latest previous),
           count_true (sell_tests self latest previous))).
Proof.
  intros Hrsi. split.
  - now apply count_votes_of_tests.
  - intros ohlcv i Hsq Hrow. apply count_votes_of_tests; [exact Hrsi | ].
    apply ordered_bands_do_not_overlap.
    exact (built_row_bands self ohlcv i latest Hsq Hrow).
Qed.

(** The default thresholds 30 and 70, and bands at 95 and 110. *)
Lemma votes_count_the_tests_witness :
  count_votes default_config (rsi_bb_row 90 20 110 95) (bare_row 100)
  = (2, 0)%nat.
Proof.
  exact (proj1 (votes_count_the_tests (sq := sqrt_floor) default_config
                  (rsi_bb_row 90 20 110 95) (bare_row 100) eq_refl)
           eq_refl).
Defined.

(* ================================================================== *)
(** * The MACD columns have no warm-up *)
(* ================================================================== *)

Lemma finite_closes (ohlcv : list Candle.t) :
  Forall (fun c => exists q, Candle.close c = Fin q) ohlcv ->
  exists qs, map Candle.close ohlcv = map Fin qs
             /\ length qs = length ohlcv.
Proof.
  induction 1 as [ | c cs [q Hq] _ (qs & Hqs & Hlen)].
  - now exists [].
  - exists (q :: qs). cbn [map length]. now rewrite Hq, Hqs, Hlen.
Qed.

Lemma nth_map_fin (qs : list Q) (k : nat) :
  (k < length qs)%nat -> nth k (map Fin qs) NaN = Fin (nth k qs 0%Q).
Proof.
  intros Hk. rewrite (nth_indep _ NaN (Fin 0)) by now rewrite length_map.
  apply (map_nth Fin).
Qed.

(** Over finite closes the MACD line is finite at every index: the fast
    weighted average less the slow one. *)
Lemma macd_line_finite (qs : list Q) :
  exists line : list Q,
    macd (exp1 (map Fin qs)) (exp2 (map Fin qs)) = map Fin line
    /\ length line = length qs
    /\ forall k, (k < length qs)%nat ->
         (nth k line 0 == weighted_average (2 # 13) qs k
                          - weighted_average (2 # 27) qs k)%Q.
Proof.
  set (close := map Fin qs).
  assert (Hlen : length (exp1 close) = length (exp2 close))
    by (unfold exp1, exp2; now rewrite !ewm_mean_length).
  assert (Hline : forall k, (k < length qs)%nat ->
            exists m, nth k (macd (exp1 close) (exp2 close)) NaN = Fin m
                      /\ (m == weighted_average (2 # 13) qs k
                               - weighted_average (2 # 27) qs k)%Q).
  { intros k Hk. unfold macd.
    rewrite nth_map2 by (reflexivity || exact Hlen).
    destruct (same_fin_inv _ _
                (ewm_mean_weighted_average 12 (2 # 13) qs k
                   ltac:(discriminate) eq_refl Hk)) as (a & Ha & Haq).
    destruct (same_fin_inv _ _
                (ewm_mean_weighted_average 26 (2 # 27) qs k
                   ltac:(discriminate) eq_refl Hk)) as (b & Hb & Hbq).
    unfold exp1, exp2, close. rewrite Ha, Hb.
    eexists. split; [reflexivity | ].
    rewrite Qred_correct, Haq, Hbq. reflexivity. }
  assert (Hlinelen : length (macd (exp1 close) (exp2 close)) = length qs).
  { unfold macd. rewrite map2_length by exact Hlen.
    unfold exp1, close. now rewrite ewm_mean_length, length_map. }
  destruct (all_finite (macd (exp1 close) (exp2 close))) as [line Hfinite].
  { intros k Hk. rewrite Hlinelen in Hk.
    destruct (Hline k Hk) as (m & Hm & _). now exists m. }
  assert (Hll : length line = length qs)
    by now rewrite <- (length_map Fin), <- Hfinite.
  exists line. repeat split; [exact Hfinite | exact Hll | ].
  intros k Hk. destruct (Hline k Hk) as (m & Hm & Hmq).
  rewrite Hfinite, nth_map_fin in Hm by now rewrite Hll.
  injection Hm as ->. exact Hmq.
Qed.

(** X15.  The MACD columns have no warm-up.  Over finite closes every
    row of the frame, the first included, has a MACD line, a signal line
    and a histogram, the histogram being the line less the signal; on the
    first row all three are zero. *)
Theorem macd_columns_have_no_warmup
  {sq : Sqrt} (self : config) (ohlcv : list Candle.t) (i : nat)
  (row : DfRow.t) :
  Forall (fun c => exists q, Candle.close c = Fin q) ohlcv ->
  nth_error (calculate_indicators self ohlcv) i = Some row ->
  macd_defined row /\ (i = 0%nat -> macd_at_zero row).
Proof.
  intros Hfin Hrow.
  assert (Hi : (i < length ohlcv)%nat).
  { rewrite <- (calculate_indicators_length self).
    apply nth_error_Some. now rewrite Hrow. }
  destruct (calculate_indicators_nth_error self ohlcv i row Hrow) as [b ->].
  destruct (finite_closes ohlcv Hfin) as (qs & -> & Hqs).
  rewrite <- Hqs in Hi. clear Hrow Hfin Hqs.
  unfold macd_defined, macd_at_zero.
  cbn [frame_row indicator_columns DfRow.macd DfRow.macd_signal
         DfRow.macd_histogram df_macd df_macd_signal df_macd_histogram].
  destruct (macd_line_finite qs) as (line & -> & Hll & Hline).
  assert (Hil : (i < length line)%nat) by now rewrite Hll.
  unfold macd_histogram.
  rewrite nth_map2
    by (reflexivity
        || (unfold macd_signal; now rewrite ewm_mean_length)).
  destruct (same_fin_inv _ _
              (ewm_mean_weighted_average 9 (1 # 5) line i
                 ltac:(discriminate) eq_refl Hil)) as (s & Hs & Hsq).
  unfold macd_signal. rewrite Hs, (nth_map_fin line i Hil).
  cbn [Float.sub Float.neg Float.add Float.same].
  split.
  - exists (nth i line 0%Q), s, (Qred (nth i line 0%Q + - s)).
    repeat split. rewrite Qred_correct. reflexivity.
  - intros ->.
    assert (Hm : (nth 0 line 0 == 0)%Q).
    { rewrite (Hline 0%nat Hi), !weighted_average_0 by discriminate.
      ring. }
    assert (Hs0 : (s == 0)%Q).
    { rewrite Hsq, weighted_average_0 by discriminate. exact Hm. }
    repeat split; [exact Hm | exact Hs0 | ].
    rewrite Qred_correct, Hm, Hs0. reflexivity.
Qed.

(** The first row of the falling series. *)
Lemma macd_columns_have_no_warmup_witness :
  exists row,
    nth_error (calculate_indicators (sq := sqrt_floor) default_config
                 (firstn 2 falling)) 0 = Some row
    /\ macd_at_zero row.
Proof.
  eexists. split; [reflexivity | ].
  refine (proj2 (macd_columns_have_no_warmup (sq := sqrt_floor)
                   default_config (firstn 2 falling) 0 _ _ eq_refl)
            eq_refl).
  repeat constructor; eexists; reflexivity.
Defined.

(* ================================================================== *)
(** * The thresholds of an open position *)
(* ================================================================== *)

Lemma leb_fin (a b : Q) : (Fin a <=? Fin b) = true <-> (a <= b)%Q.
Proof.
  unfold Float.leb. cbn [Float.compare]. rewrite Qle_alt.
  destruct (a ?= b)%Q; split; intros H; try reflexivity; try discriminate.
  now elim H.
Qed.

Lemma geb_fin (a b : Q) : (Fin a >=? Fin b) = true <-> (b <= a)%Q.
Proof.
  unfold Float.geb. cbn [Float.compare]. rewrite (Qge_alt a b).
  destruct (a ?= b)%Q; split; intros H; try reflexivity; try discriminate.
  now elim H.
Qed.

Lemma leb_nan_l (a : float) : (NaN <=? a) = false.
Proof. reflexivity. Qed.

Lemma geb_nan_l (a : float) : (NaN >=? a) = false.
Proof. reflexivity. Qed.

Lemma mul_nan_l (a : float) : (NaN * a)%float = NaN.
Proof. reflexivity. Qed.

(** No threshold is hit by a missing price, nor by any price when the
    entry price is missing. *)
Lemma thresholds_need_prices (self : config) (pos : Position.t)
  (price : float) :
  price = NaN \/ Position.entry_price pos = NaN ->
  stop_loss_hit self pos price = false
  /\ take_profit_hit self pos price = false.
Proof.
  unfold stop_loss_hit, take_profit_hit.
  intros [-> | ->]; destruct (Position.side_ pos);
    rewrite ?mul_nan_l, ?leb_nan_l, ?geb_nan_l, ?leb_nan_r, ?geb_nan_r;
    now split.
Qed.

(** X16.  A gap in the prices closes nothing.  When the last close of
    the fetched candles is missing, or the entry price of the position
    is, every threshold comparison is false: the cycle sends no order
    and keeps the position and [last_signal], however far the market
    has moved. *)
Theorem missing_price_closes_nothing
  {sq : Sqrt} (self : config) (binance : exchange) (s : bot)
  (pos : Position.t) (c : Candle.t) (cs : list Candle.t) :
  position s = Some pos ->
  fetch_ohlcv binance (fetches s) = Some (c :: cs) ->
  last (map Candle.close (c :: cs)) NaN = NaN
  \/ Position.entry_price pos = NaN ->
  let s' := run_strategy self binance s in
  position s' = Some pos /\ last_signal s' = last_signal s
  /\ sent s' = sent s.
Proof.
  intros Hpos Hfetch Hgap s'.
  assert (Hprice : fetched_price binance (fetches s)
                   = last (map Candle.close (c :: cs)) NaN)
    by (unfold fetched_price; now rewrite Hfetch).
  destruct (thresholds_need_prices self pos
              (fetched_price binance (fetches s))) as [Hstop Htake].
  { rewrite Hprice. exact Hgap. }
  destruct (after_manage_holding self binance s pos Hpos) as [Hlast Hkept].
  rewrite Hstop, Htake in Hkept. destruct Hkept as [Hp Hs].
  unfold s'. rewrite (run_strategy_fetched self binance s c cs Hfetch).
  cbv zeta. rewrite Hp. cbn [log_cycle logger position last_signal sent].
  repeat split; assumption.
Qed.

(** A long position entered at 100, after a fall to 90 followed by a
    candle without a close: the stop-loss at 98 does not fire. *)
Lemma missing_price_closes_nothing_witness :
  let binance :=
    fixed_exchange (bars [100; 90]%Q ++ [gap_bar])
      (Some (filled_order 90)) in
  let s' := run_strategy (sq := sqrt_floor) default_config binance
              (holding long_at_100) in
  position s' = Some long_at_100 /\ last_signal s' = Some BUY
  /\ sent s' = [].
Proof.
  intros binance s'.
  exact (missing_price_closes_nothing (sq := sqrt_floor) default_config
           binance (holding long_at_100) long_at_100
           (flat_bar 100) (bars [90]%Q ++ [gap_bar])
           eq_refl eq_refl (or_introl eq_refl)).
Defined.

(** X17.  With a positive entry price and percentages that are not
    negative and not both zero, no price hits the stop-loss and the
    take-profit of a position at once.  The [elif] of [manage_position]
    therefore hides nothing: whenever the take-profit test holds the
    position is closed under the take-profit message. *)
Theorem thresholds_exclude_each_other
  (self : config) (pos : Position.t) (e sl tp : Q) (price : float) :
  Position.entry_price pos = Fin e ->
  stop_loss_pct self = Fin sl ->
  take_profit_pct self = Fin tp ->
  (0 < e)%Q -> (0 <= sl)%Q -> (0 <= tp)%Q -> (0 < sl + tp)%Q ->
  stop_loss_hit self pos price && take_profit_hit self pos price = false
  /\ forall (binance : exchange) (s : bot),
       position s = Some pos ->
       take_profit_hit self pos price = true ->
       manage_position self binance price s
       = set_position None
           (snd (place_order binance (req_side (closing_request pos))
                   (Position.amount pos) None
                   (logger (TakeProfit price) s))).
Proof.
  intros He Hsl Htp Hpos Hsl0 Htp0 Hsum.
  assert (Hexcl : stop_loss_hit self pos price
                  && take_profit_hit self pos price = false).
  { unfold stop_loss_hit, take_profit_hit. rewrite He, Hsl, Htp.
    cbn [Float.mul Float.sub Float.add Float.neg].
    assert (Hgap : (0 < e * (sl + tp))%Q)
      by now apply Qmult_lt_0_compat.
    destruct (Position.side_ pos); destruct price as [ | | p | ];
      try reflexivity.
    - destruct (Fin p <=? _) eqn:Hl; [ | reflexivity].
      destruct (Fin p >=? _) eqn:Hg; [ | reflexivity].
      exfalso. apply leb_fin in Hl. apply geb_fin in Hg.
      rewrite !Qred_correct in Hl, Hg. lra.
    - destruct (Fin p >=? _) eqn:Hg; [ | reflexivity].
      destruct (Fin p <=? _) eqn:Hl; [ | reflexivity].
      exfalso. apply leb_fin in Hl. apply geb_fin in Hg.
      rewrite !Qred_correct in Hl, Hg. lra. }
  split; [exact Hexcl | ].
  intros binance s Hs Htake.
  pose proof (manage_position_cases self binance s pos price Hs) as Hc.
  cbv zeta in Hc. rewrite Htake in Hc, Hexcl.
  destruct (stop_loss_hit self pos price); [discriminate | exact Hc].
Qed.

(** The default 2% and 4% around an entry at 100, at the price 104. *)
Lemma thresholds_exclude_each_other_witness :
  stop_loss_hit default_config long_at_100 (Fin 104)
  && take_profit_hit default_config long_at_100 (Fin 104) = false.
Proof.
  refine (proj1 (thresholds_exclude_each_other default_config long_at_100
                   100 (2 # 100) (4 # 100) (Fin 104)
                   eq_refl eq_refl eq_refl _ _ _ _));
    reflexivity || discriminate.
Defined.
